(** * Schema change management: workflow state machine, DDL comparison and
    templating safety

    A shallow embedding of the Python sources under [scripts/]:

    - [scripts/compare_schema.py]: [normalize_ddl], [normalize_grant],
      [compare_objects], [compare_grants] and the verdict computed by [main];
    - [scripts/utils/workflow/templating_analyzer.py]: the safety classifier
      [_is_safe_to_template] and [_is_in_string_literal];
    - [scripts/utils/workflow/state_manager.py], [safe_extractor.py],
      [interactive_reviewer.py], [final_generator.py], [commit_manager.py]:
      the persisted workflow state and the operations gated by it.

    Conventions of the embedding.

    - Python [str] values are sequences of 8-bit characters ([list ascii] for
      the text algorithms, [string] where the value is a dictionary key or a
      file name).  Case mapping and white space are the ASCII restrictions of
      Python's: [upper] maps [a-z] to [A-Z] and leaves every other character
      alone, and the white space of [str.strip] and of the regular expression
      class [\s] is TAB, LF, VT, FF, CR, FS, GS, RS, US and SPACE.
    - Every [re.sub] and [re.search] of the sources is written as the scanning
      function that the regular expression denotes (leftmost match, greedy
      repetition, matches do not overlap); the expression is quoted next to
      each function.
    - The file system is a finite map from paths to nodes; a JSON document is
      stored as the value [json.load] gives back for it.
    - An operation returns [Done b w] when the Python method returns [b] and
      leaves the world [w], and [Raised] when an exception leaves the method.
*)

From Stdlib Require Import Ascii String ZArith Lia Bool.
From stdpp Require Import gmap strings list fin_maps sorting.

Abbreviation text := (list ascii).

(** ** Python string primitives *)

Module Text.

Definition of_string (s : string) : text := list_ascii_of_string s.
Definition to_string (t : text) : string := string_of_list_ascii t.

(** [str.isspace] on one character, restricted to ASCII. *)
Definition is_space (c : ascii) : bool :=
  match c with
  | "009" | "010" | "011" | "012" | "013"
  | "028" | "029" | "030" | "031" | " " => true
  | _ => false
  end%char.

Definition is_newline (c : ascii) : bool :=
  match c with "010"%char => true | _ => false end.

Definition is_digit (c : ascii) : bool :=
  let n := N_of_ascii c in ((48 <=? n) && (n <=? 57))%N.

Definition upper_char (c : ascii) : ascii :=
  let n := N_of_ascii c in
  if ((97 <=? n) && (n <=? 122))%N then ascii_of_N (n - 32) else c.

Definition lower_char (c : ascii) : ascii :=
  let n := N_of_ascii c in
  if ((65 <=? n) && (n <=? 90))%N then ascii_of_N (n + 32) else c.

Definition ascii_eqb (a b : ascii) : bool := Ascii.eqb a b.

(** [s.upper()] and [s.lower()]. *)
Definition upper (s : text) : text := map upper_char s.
Definition lower (s : text) : text := map lower_char s.

(** [s.lstrip()], [s.rstrip()], [s.strip()]. *)
Fixpoint lstrip (s : text) : text :=
  match s with
  | [] => []
  | c :: t => if is_space c then lstrip t else s
  end.

Fixpoint rstrip (s : text) : text :=
  match s with
  | [] => []
  | c :: t =>
      match rstrip t with
      | [] => if is_space c then [] else [c]
      | r => c :: r
      end
  end.

Definition strip (s : text) : text := rstrip (lstrip s).

(** [s.strip(ch)] for a one-character argument. *)
Fixpoint lstrip_char (ch : ascii) (s : text) : text :=
  match s with
  | [] => []
  | c :: t => if ascii_eqb c ch then lstrip_char ch t else s
  end.

Fixpoint rstrip_char (ch : ascii) (s : text) : text :=
  match s with
  | [] => []
  | c :: t =>
      match rstrip_char ch t with
      | [] => if ascii_eqb c ch then [] else [c]
      | r => c :: r
      end
  end.

Definition strip_char (ch : ascii) (s : text) : text :=
  rstrip_char ch (lstrip_char ch s).

Definition text_eqb (a b : text) : bool := bool_decide (a = b).

(** [s.startswith(p)]; on success the rest of [s] is returned. *)
Fixpoint strip_prefix (p s : text) : option text :=
  match p, s with
  | [], _ => Some s
  | a :: p', b :: s' => if ascii_eqb a b then strip_prefix p' s' else None
  | _ :: _, [] => None
  end.

Definition startswith (p s : text) : bool :=
  match strip_prefix p s with Some _ => true | None => false end.

(** [s.endswith(p)]. *)
Definition endswith (p s : text) : bool :=
  startswith (rev p) (rev s).

(** [sub in s]. *)
Fixpoint contains (sub s : text) : bool :=
  startswith sub s ||
  match s with
  | [] => false
  | _ :: t => contains sub t
  end.

(** [s.find(sub)] from the start of [s]: the index of the leftmost
    occurrence, [None] for Python's [-1]. *)
Fixpoint find (sub s : text) : option nat :=
  if startswith sub s then Some 0
  else match s with
       | [] => None
       | _ :: t => S <$> find sub t
       end.

(** [s.count(sub)]: the number of occurrences that do not overlap, counted
    from the left; for the empty [sub] Python answers [len(s) + 1]. *)
Fixpoint count_go (fuel : nat) (sub s : text) : nat :=
  match fuel with
  | O => 0
  | S fuel' =>
      match s with
      | [] => 0
      | _ :: t =>
          match strip_prefix sub s with
          | Some rest => S (count_go fuel' sub rest)
          | None => count_go fuel' sub t
          end
      end
  end.

Definition count (sub s : text) : nat :=
  match sub with
  | [] => S (length s)
  | _ => count_go (length s) sub s
  end.

(** [s.replace(old, new)]: every occurrence of [old], leftmost first and
    without overlap; for the empty [old] Python puts [new] before every
    character and at the end. *)
Fixpoint replace_go (fuel : nat) (old new s : text) : text :=
  match fuel with
  | O => s
  | S fuel' =>
      match s with
      | [] => []
      | c :: t =>
          match strip_prefix old s with
          | Some rest => new ++ replace_go fuel' old new rest
          | None => c :: replace_go fuel' old new t
          end
      end
  end.

Definition replace (old new s : text) : text :=
  match old with
  | [] => flat_map (fun c => new ++ [c]) s ++ new
  | _ => replace_go (length s) old new s
  end.

(** [s.split(sep)] for a separator that is not empty. *)
Fixpoint split_go (fuel : nat) (sep : text) (cur : text) (s : text)
  : list text :=
  match fuel with
  | O => [rev cur ++ s]
  | S fuel' =>
      match s with
      | [] => [rev cur]
      | c :: t =>
          match strip_prefix sep s with
          | Some rest => rev cur :: split_go fuel' sep [] rest
          | None => split_go fuel' sep (c :: cur) t
          end
      end
  end.

Definition split (sep s : text) : list text :=
  split_go (S (length s)) sep [] s.

(** [sep.join(parts)]. *)
Fixpoint join (sep : text) (parts : list text) : text :=
  match parts with
  | [] => []
  | [p] => p
  | p :: ps => p ++ sep ++ join sep ps
  end.

(** The slice [s[i:j]] for indices that are not negative. *)
Definition slice (i j : nat) (s : text) : text :=
  firstn (j - i) (skipn i s).

(** [str(n)] for a natural number. *)
Definition digit_char (n : nat) : ascii := ascii_of_nat (48 + n).

Fixpoint decimal_go (fuel n : nat) (acc : text) : text :=
  match fuel with
  | O => acc
  | S fuel' =>
      let acc' := digit_char (n mod 10) :: acc in
      if n / 10 =? 0 then acc' else decimal_go fuel' (n / 10) acc'
  end.

Definition decimal (n : nat) : text := decimal_go (S n) n [].

End Text.

(** ** scripts/compare_schema.py: canonical forms *)

Module Normalize.
Import Text.

Definition is_dash (c : ascii) : bool :=
  match c with "-"%char => true | _ => false end.

(** Does [s] start with a character of [P]? *)
Definition head_is (P : ascii -> bool) (s : text) : bool :=
  match s with
  | c :: _ => P c
  | [] => false
  end.

(** [re.sub(r'--.*$', '', s, flags=re.MULTILINE)]: a comment runs from [--]
    to the end of its line; the line feed itself stays. *)
Fixpoint remove_comments_from (in_comment : bool) (s : text) : text :=
  match s with
  | [] => []
  | c :: t =>
      if in_comment then
        if is_newline c then c :: remove_comments_from false t
        else remove_comments_from true t
      else if is_dash c && head_is is_dash t
      then remove_comments_from true t
      else c :: remove_comments_from false t
  end.

Definition remove_comments (s : text) : text := remove_comments_from false s.

(** [re.sub(r'\s+', ' ', s)]: every run of white space becomes one space. *)
Fixpoint collapse_ws_from (in_run : bool) (s : text) : text :=
  match s with
  | [] => []
  | c :: t =>
      if is_space c then
        if in_run then collapse_ws_from true t
        else " "%char :: collapse_ws_from true t
      else c :: collapse_ws_from false t
  end.

Definition collapse_ws (s : text) : text := collapse_ws_from false s.

(** Does the white space at the head of [s] lead to a character of [P]? *)
Definition next_is (P : ascii -> bool) (s : text) : bool :=
  match lstrip s with
  | c :: _ => P c
  | [] => false
  end.

(** [re.sub(r'\s*(P)\s*', r'\1', s)] for a class [P] of characters that
    are not white space: the white space on both sides of every character of
    [P] goes.  [after] says that the scan stands in the white space that
    follows a character of [P]. *)
Fixpoint squeeze_from (P : ascii -> bool) (after : bool) (s : text) : text :=
  match s with
  | [] => []
  | c :: t =>
      if P c then c :: squeeze_from P true t
      else if is_space c then
        if after || next_is P t then squeeze_from P after t
        else c :: squeeze_from P false t
      else c :: squeeze_from P false t
  end.

Definition squeeze (P : ascii -> bool) (s : text) : text :=
  squeeze_from P false s.

(** The classes [[(),;]], [,] and [=]. *)
Definition is_punct (c : ascii) : bool :=
  match c with
  | "("%char | ")"%char | ","%char | ";"%char => true
  | _ => false
  end.

Definition is_comma (c : ascii) : bool :=
  match c with ","%char => true | _ => false end.

Definition is_equals (c : ascii) : bool :=
  match c with "="%char => true | _ => false end.

Definition is_semicolon (c : ascii) : bool :=
  match c with ";"%char => true | _ => false end.

(** [re.sub(r';\s*$', '', s)]: without [re.MULTILINE] the match is the
    leftmost semicolon that only white space follows, up to the end. *)
Fixpoint remove_trailing_semicolon (s : text) : text :=
  match s with
  | [] => []
  | c :: t =>
      if is_semicolon c && forallb is_space t then []
      else c :: remove_trailing_semicolon t
  end.

(** One match of
    [\{\{\s*VAR\s*\(\s*["\']ENV["\']\s*\)\s*\}\}] at the head of [s]; the
    text after the match is returned.  Every [\s*] is followed by a
    character that is not white space, so the greedy choice is the only
    one. *)
Definition expect (lit : string) (s : option text) : option text :=
  s ≫= strip_prefix (of_string lit).

Definition skip_ws (s : option text) : option text := lstrip <$> s.

Definition squote : ascii := "'"%char.
(** The double quote is character 34. *)
Definition dquote : ascii :=
  Ascii false true false false false true false false.

Definition is_quote (c : ascii) : bool :=
  ascii_eqb c squote || ascii_eqb c dquote.

Definition expect_quote (s : option text) : option text :=
  s ≫= fun r => match r with
                | c :: t => if is_quote c then Some t else None
                | [] => None
                end.

Definition match_var (s : text) : option text :=
  expect "}}" (skip_ws (expect ")" (skip_ws (expect_quote (expect "ENV"
    (expect_quote (skip_ws (expect "(" (skip_ws (expect "VAR"
      (skip_ws (expect "{{" (Some s))))))))))))).

Definition sit : text := of_string "SIT".

(** [re.sub(<the pattern above>, 'SIT', s)]. *)
Fixpoint sub_var_go (fuel : nat) (s : text) : text :=
  match fuel with
  | O => s
  | S fuel' =>
      match s with
      | [] => []
      | c :: t =>
          match match_var s with
          | Some rest => sit ++ sub_var_go fuel' rest
          | None => c :: sub_var_go fuel' t
          end
      end
  end.

Definition sub_var (s : text) : text := sub_var_go (length s) s.

(** [normalize_ddl], on texts. *)
Definition normalize_ddl_text (ddl_text : text) : text :=
  match ddl_text with
  | [] => []
  | _ =>
      let normalized := strip (upper ddl_text) in
      let normalized := remove_comments normalized in
      let normalized := collapse_ws normalized in
      let normalized := squeeze is_punct normalized in
      let normalized := squeeze is_comma normalized in
      let normalized := squeeze is_equals normalized in
      let normalized := remove_trailing_semicolon normalized in
      let normalized := sub_var normalized in
      strip normalized
  end.

Definition normalize_ddl (ddl_text : string) : string :=
  to_string (normalize_ddl_text (of_string ddl_text)).

(** One match of [pre q ([^q]+) q post] at the head of [s], for a quote
    character [q] and literal texts [pre] and [post]: the group and the
    text after the match.  The group is the longest run without [q]; no
    shorter run is followed by [q]. *)
Fixpoint span_not (q : ascii) (s : text) : text * text :=
  match s with
  | [] => ([], [])
  | c :: t =>
      if ascii_eqb c q then ([], s)
      else let '(g, r) := span_not q t in (c :: g, r)
  end.

Definition match_quoted (pre : text) (q : ascii) (post : text) (s : text)
  : option (text * text) :=
  match strip_prefix (pre ++ [q]) s with
  | None => None
  | Some r =>
      match span_not q r with
      | ([], _) => None
      | (g, r') =>
          match strip_prefix (q :: post) r' with
          | Some rest => Some (g, rest)
          | None => None
          end
      end
  end.

(** [re.sub(pre q ([^q]+) q post, r'\1', s)]. *)
Fixpoint unquote_go (fuel : nat) (pre : text) (q : ascii) (post : text)
  (s : text) : text :=
  match fuel with
  | O => s
  | S fuel' =>
      match s with
      | [] => []
      | c :: t =>
          match match_quoted pre q post s with
          | Some (g, rest) => g ++ unquote_go fuel' pre q post rest
          | None => c :: unquote_go fuel' pre q post t
          end
      end
  end.

Definition unquote (pre : string) (q : ascii) (post : string) (s : text)
  : text :=
  unquote_go (length s) (of_string pre) q (of_string post) s.

(** [normalize_grant], on texts. *)
Definition normalize_grant_text (grant_statement : text) : text :=
  let normalized := strip (upper grant_statement) in
  let normalized := unquote "IDENTIFIER(" squote ")" normalized in
  let normalized := unquote "IDENTIFIER(" dquote ")" normalized in
  let normalized := collapse_ws normalized in
  let normalized := unquote "" squote "" normalized in
  let normalized := unquote "" dquote "" normalized in
  strip normalized.

Definition normalize_grant (grant_statement : string) : string :=
  to_string (normalize_grant_text (of_string grant_statement)).

End Normalize.

(** ** scripts/compare_schema.py: comparison and verdict *)

Module Compare.
Import Text Normalize.

Definition strip_string (s : string) : string :=
  to_string (strip (of_string s)).

(** The truth value of a Python string: the empty string is false. *)
Definition truthy (s : string) : bool :=
  match s with
  | EmptyString => false
  | _ => true
  end.

Inductive change := New | Removed | Modified | Unchanged.

Global Instance change_eq_dec : EqDecision change.
Proof. solve_decision. Defined.

(** [d.get(key, '')]. *)
Definition get_default (d : gmap string string) (key : string) : string :=
  default EmptyString (d !! key).

(** The body of the loop of [compare_objects] for one key. *)
Definition classify (current_objects proposed_objects : gmap string string)
  (obj_key : string) : change :=
  let current_ddl := strip_string (get_default current_objects obj_key) in
  let proposed_ddl := strip_string (get_default proposed_objects obj_key) in
  let current_normalized := normalize_ddl current_ddl in
  let proposed_normalized := normalize_ddl proposed_ddl in
  if negb (truthy current_normalized) && truthy proposed_normalized then New
  else if truthy current_normalized && negb (truthy proposed_normalized)
  then Removed
  else if negb (bool_decide (current_normalized = proposed_normalized))
  then Modified
  else Unchanged.

Record object_changes := {
  new : list string;
  modified : list string;
  removed : list string;
  unchanged : list string
}.

Definition no_changes : object_changes :=
  {| new := []; modified := []; removed := []; unchanged := [] |}.

(** [changes[kind].append(obj_key)]. *)
Definition record_change (changes : object_changes) (kind : change)
  (obj_key : string) : object_changes :=
  match kind with
  | New =>
      {| new := new changes ++ [obj_key]; modified := modified changes;
         removed := removed changes; unchanged := unchanged changes |}
  | Modified =>
      {| new := new changes; modified := modified changes ++ [obj_key];
         removed := removed changes; unchanged := unchanged changes |}
  | Removed =>
      {| new := new changes; modified := modified changes;
         removed := removed changes ++ [obj_key];
         unchanged := unchanged changes |}
  | Unchanged =>
      {| new := new changes; modified := modified changes;
         removed := removed changes;
         unchanged := unchanged changes ++ [obj_key] |}
  end.

(** [set(current_objects.keys()) | set(proposed_objects.keys())]. *)
Definition all_objects (current_objects proposed_objects : gmap string string)
  : gset string :=
  dom current_objects ∪ dom proposed_objects.

(** [sorted(keys)]: Python orders strings by code point. *)
Definition sorted (keys : gset string) : list string :=
  merge_sort String.le (elements keys).

Definition compare_objects
  (current_objects proposed_objects : gmap string string) : object_changes :=
  foldl
    (fun changes obj_key =>
       record_change changes
         (classify current_objects proposed_objects obj_key) obj_key)
    no_changes
    (sorted (all_objects current_objects proposed_objects)).

Record grant_changes := {
  new_grants : gset string;
  removed_grants : gset string;
  unchanged_grants : gset string
}.

(** [set({normalize_grant(g): g for g in grants}.keys())]. *)
Definition normalized_set (grants : list string) : gset string :=
  list_to_set (normalize_grant <$> grants).

Definition compare_grants (current_grants proposed_grants : list string)
  : grant_changes :=
  let current_set := normalized_set current_grants in
  let proposed_set := normalized_set proposed_grants in
  {| new_grants := proposed_set ∖ current_set;
     removed_grants := current_set ∖ proposed_set;
     unchanged_grants := current_set ∩ proposed_set |}.

(** [sub in s] on strings. *)
Definition occurs_in (sub s : string) : bool :=
  contains (of_string sub) (of_string s).

Definition wrong_env_markers : list string :=
  ["_PROD_"; "_DEV_"; "_QA_"; "_UAT_"].

Definition unmanaged_kinds : list string :=
  ["AGGREGATION POLICY"; "ALERT"; "AUTHENTICATION POLICY"; "CORTEX SEARCH";
   "DATA METRIC FUNCTION"; "DATASET"; "EVENT TABLE"; "EXTERNAL TABLE";
   "GIT REPOSITORY"; "ICEBERG TABLE"; "IMAGE REPOSITORY"; "MASKING POLICY";
   "MODEL"; "NETWORK RULE"; "NOTEBOOK"; "PACKAGES POLICY"; "PASSWORD POLICY";
   "PRIVACY POLICY"; "PROJECTION POLICY"; "RESOURCE GROUP";
   "ROW ACCESS POLICY"; "SECRET"; "SERVICE CLASS"; "SERVICE";
   "SESSION POLICY"; "SNAPSHOT"; "STREAMLIT"; "TAG"; "TEMPORARY TABLE"].

(** [any(env in grant for env in [...] if env != f'_{target_env}_')]. *)
Definition is_environment_cleanup (target_env grant : string) : bool :=
  existsb
    (fun env =>
       negb (bool_decide (env = "_" +:+ target_env +:+ "_"))
       && occurs_in env grant)
    wrong_env_markers.

Definition is_scope_cleanup (grant : string) : bool :=
  existsb (fun policy_type => occurs_in policy_type grant) unmanaged_kinds.

(** The two lists built by the loop over [grant_changes['removed']]. *)
Definition environment_cleanup_grants (target_env : string)
  (g : grant_changes) : list string :=
  List.filter (is_environment_cleanup target_env)
    (elements (removed_grants g)).

Definition scope_cleanup_grants (target_env : string) (g : grant_changes)
  : list string :=
  List.filter
    (fun grant =>
       negb (is_environment_cleanup target_env grant)
       && is_scope_cleanup grant)
    (elements (removed_grants g)).

Definition managed_object_changes (o : object_changes) : nat :=
  length (new o) + length (modified o) + length (removed o).

Definition meaningful_grant_changes (g : grant_changes) : nat :=
  size (new_grants g).

Definition meaningful_changes (target_env : string) (o : object_changes)
  (g : grant_changes) : nat :=
  managed_object_changes o + meaningful_grant_changes g
  + length (environment_cleanup_grants target_env g).

(** The value returned by the summary at the end of [main]. *)
Definition summary_verdict (target_env : string) (o : object_changes)
  (g : grant_changes) : Z :=
  if (meaningful_changes target_env o g =? 0)
     && (length (scope_cleanup_grants target_env g) =? 0)
  then 0%Z
  else if 0 <? meaningful_changes target_env o g then 2%Z else 0%Z.

(** What [main] has in hand when it reaches the comparison.  The warehouse
    and the schema directory are outside the embedding: either the schema
    directory is missing, or a step inside the [try] block raised, or the
    current and the proposed objects and grants were loaded. *)
Inductive loaded :=
| SchemaDirMissing
| Failed
| Loaded (current_objects : gmap string string) (current_grants : list string)
    (proposed_objects : gmap string string) (proposed_grants : list string).

Definition main (target_env : string) (l : loaded) : Z :=
  match l with
  | SchemaDirMissing => 1%Z
  | Failed => 1%Z
  | Loaded current_objects current_grants proposed_objects proposed_grants =>
      let object_changes := compare_objects current_objects proposed_objects in
      let grant_changes := compare_grants current_grants proposed_grants in
      summary_verdict target_env object_changes grant_changes
  end.

End Compare.

(** ** scripts/utils/workflow/templating_analyzer.py: the safety classifier *)

Module Analyzer.
Import Text.

(** The regular expressions of [_is_safe_to_template] are sequences of
    literal words and [\s+]; they are searched with [re.IGNORECASE]. *)
Inductive atom :=
| Lit (word : text)
| Spaces.

Definition same_letter (a b : ascii) : bool :=
  ascii_eqb (lower_char a) (lower_char b).

Fixpoint strip_prefix_ci (p s : text) : option text :=
  match p, s with
  | [], _ => Some s
  | a :: p', b :: s' =>
      if same_letter a b then strip_prefix_ci p' s' else None
  | _ :: _, [] => None
  end.

(** [\s*] followed by the rest of the expression [k]; every split of the
    white space is tried. *)
Fixpoint spaces_then (k : text -> bool) (s : text) : bool :=
  k s ||
  match s with
  | c :: t => is_space c && spaces_then k t
  | [] => false
  end.

(** [re.match(p, s, re.IGNORECASE) is not None]. *)
Fixpoint match_here (p : list atom) (s : text) : bool :=
  match p with
  | [] => true
  | Lit word :: p' =>
      match strip_prefix_ci word s with
      | Some rest => match_here p' rest
      | None => false
      end
  | Spaces :: p' =>
      match s with
      | c :: t => is_space c && spaces_then (match_here p') t
      | [] => false
      end
  end.

(** [re.search(p, s, re.IGNORECASE) is not None]. *)
Fixpoint re_search (p : list atom) (s : text) : bool :=
  match_here p s ||
  match s with
  | _ :: t => re_search p t
  | [] => false
  end.

(** [r'FROM\s+' + re.escape(match_text)] and its three siblings. *)
Definition from_join_patterns (match_text : text) : list (list atom) :=
  [ [Lit (of_string "FROM"); Spaces; Lit match_text];
    [Lit (of_string "JOIN"); Spaces; Lit match_text];
    [Lit (of_string "UPDATE"); Spaces; Lit match_text];
    [Lit (of_string "DELETE"); Spaces; Lit (of_string "FROM"); Spaces;
     Lit match_text] ].

(** [r'CREATE\s+TABLE\s+' + re.escape(match_text)] and its siblings. *)
Definition table_column_patterns (match_text : text) : list (list atom) :=
  [ [Lit (of_string "CREATE"); Spaces; Lit (of_string "TABLE"); Spaces;
     Lit match_text];
    [Lit (of_string "CREATE"); Spaces; Lit (of_string "VIEW"); Spaces;
     Lit match_text];
    [Lit (of_string "ALTER"); Spaces; Lit (of_string "TABLE"); Spaces;
     Lit match_text];
    [Lit (of_string "DROP"); Spaces; Lit (of_string "TABLE"); Spaces;
     Lit match_text] ].

Definition backslash : ascii := "\"%char.
Definition squote : ascii := "'"%char.
Definition dquote : ascii :=
  Ascii false true false false false true false false.

(** [_is_in_string_literal]: the quotes after the position are counted by
    the source and not used. *)
Definition _is_in_string_literal (content : text) (start stop : nat) : bool :=
  let before := firstn start content in
  let single_quotes_before :=
    (Z.of_nat (count [squote] before)
     - Z.of_nat (count [backslash; squote] before))%Z in
  let double_quotes_before :=
    (Z.of_nat (count [dquote] before)
     - Z.of_nat (count [backslash; dquote] before))%Z in
  (single_quotes_before mod 2 =? 1)%Z || (double_quotes_before mod 2 =? 1)%Z.

Definition reason_from_join : string :=
  "Database reference in FROM/JOIN clause - safe to template".
Definition reason_table_name : string :=
  "Database reference in table/view name - do not template".
Definition reason_string_literal : string :=
  "Database reference in string literal - do not template".
Definition reason_unclear : string :=
  "Unclear context - review manually".

(** [_is_safe_to_template]: the pair [(is_safe, reason)]. *)
Definition _is_safe_to_template (match_text context full_content : text)
  (start stop : nat) : bool * string :=
  if existsb (fun pattern => re_search pattern context)
       (from_join_patterns match_text)
  then (true, reason_from_join)
  else if existsb (fun pattern => re_search pattern context)
            (table_column_patterns match_text)
  then (false, reason_table_name)
  else if _is_in_string_literal full_content start stop
  then (false, reason_string_literal)
  else (false, reason_unclear).

Record suggestion := {
  type_ : string;
  original : string;
  suggested : string;
  context : string;
  position : nat * nat;
  is_safe : bool;
  reason : string;
  risk_level : string
}.

(** [_analyze_database_reference]: the window of fifty characters on each
    side, and the suggestion built from the classification. *)
Definition _analyze_database_reference (match_text : text) (start stop : nat)
  (content : text) : suggestion :=
  let context_start := start - 50 in
  let context_end := Nat.min (length content) (stop + 50) in
  let context := slice context_start context_end content in
  let '(safe, why) :=
    _is_safe_to_template match_text context content start stop in
  {| type_ := "database_reference";
     original := to_string match_text;
     suggested := "{{DB_BASE}}_{{ENV}}";
     context := to_string (strip context);
     position := (start, stop);
     is_safe := safe;
     reason := why;
     risk_level := if safe then "LOW" else "MEDIUM" |}.

End Analyzer.

(** ** scripts/utils/workflow: files, persisted state and the gated steps *)

Module Workflow.
Import Text.

(** *** Documents and the file system *)

(** The value [json.load] returns. *)
#[warnings="-register-all"] Inductive json :=
| JNull
| JBool (b : bool)
| JNum (n : Z)
| JStr (s : string)
| JArr (items : list json)
| JObj (fields : list (string * json)).

(** One record of [decisions.json], as [_review_single_suggestion] builds
    it. *)
Record decision := {
  d_suggestion_num : nat;
  d_original : string;
  d_suggested : string;
  d_context : string;
  d_reason : string;
  d_is_safe : bool;
  d_risk_level : string;
  d_decision : string;
  d_reviewed_at : string;
  d_user_notes : string
}.

(** What a file holds.  [Text] is SQL or markdown, and at the path of a JSON
    document a file that [json.load] rejects; [Json] is a JSON document;
    [Decisions] is the JSON list of records that [_save_decisions] writes. *)
Inductive content :=
| Text (t : string)
| Json (j : json)
| Decisions (ds : list decision).

Inductive node :=
| Dir
| File (c : content).

(** A path is the list of its components; the file system maps the paths
    that exist to their nodes.  Every node is expected to have its parent
    directory in the map, and the operations below keep it so. *)
Abbreviation path := (list string).
Abbreviation files := (gmap (list string) node).

Inductive outcome :=
| Done (result : bool) (w : files)
| Raised.

(** [p.exists()]. *)
Definition path_exists (p : path) (w : files) : bool :=
  bool_decide (is_Some (w !! p)).

(** [shutil.rmtree(p)]: the node and everything below it. *)
Definition rmtree (p : path) (w : files) : files :=
  filter (fun entry => ¬ p `prefix_of` entry.1) w.

(** [p.mkdir(parents=True, exist_ok=True)]: the directory and each missing
    ancestor. *)
Fixpoint mkdir_from (base : path) (rest : list string) (w : files) : files :=
  match rest with
  | [] => w
  | name :: rest' =>
      let q := base ++ [name] in
      mkdir_from q rest'
        (match w !! q with
         | Some _ => w
         | None => <[q := Dir]> w
         end)
  end.

Definition mkdir (p : path) (w : files) : files := mkdir_from [] p w.

(** [open(p, 'w')] followed by a write of the whole content. *)
Definition write (p : path) (c : content) (w : files) : files :=
  <[p := File c]> w.

(** [open(p, 'r').read()] of a text file; [None] when the read raises. *)
Definition read_text (p : path) (w : files) : option string :=
  match w !! p with
  | Some (File (Text t)) => Some t
  | _ => None
  end.

(** [p.unlink()]. *)
Definition unlink (p : path) (w : files) : files := delete p w.

(** [shutil.move(src, dst)] and [shutil.copy2(src, dst)] of a file. *)
Definition move (src dst : path) (w : files) : files :=
  match w !! src with
  | Some n => <[dst := n]> (delete src w)
  | None => w
  end.

Definition copy2 (src dst : path) (w : files) : option files :=
  match w !! src with
  | Some (File c) => Some (<[dst := File c]> w)
  | _ => None
  end.

Definition ends_sql (name : string) : bool :=
  endswith (of_string ".sql") (of_string name).

(** The name of [q] when [q] lies directly in the directory [d]. *)
Fixpoint child_of (d q : path) : option string :=
  match d, q with
  | [], [name] => Some name
  | a :: d', b :: q' => if bool_decide (a = b) then child_of d' q' else None
  | _, _ => None
  end.

(** [d.glob("*.sql")]: the names of the entries of [d] that end in
    [.sql], in the order of the directory listing. *)
Definition glob_sql (d : path) (w : files) : list string :=
  omap (fun entry =>
          match child_of d entry.1 with
          | Some name => if ends_sql name then Some name else None
          | None => None
          end)
       (map_to_list w).

(** [str(p)]. *)
Definition path_string (p : path) : string :=
  to_string (join (of_string "/") (of_string <$> p)).

Definition nl : string := String "010"%char EmptyString.

(** The lines of a text, each one closed by a line feed. *)
Fixpoint unlines (ls : list string) : string :=
  match ls with
  | [] => EmptyString
  | l :: ls' => l +:+ nl +:+ unlines ls'
  end.

Definition str_of_nat (n : nat) : string := to_string (decimal n).

Definition str_replace (old new s : string) : string :=
  to_string (replace (of_string old) (of_string new) (of_string s)).

Definition str_count (sub s : string) : nat :=
  count (of_string sub) (of_string s).

Definition str_strip (s : string) : string :=
  to_string (strip (of_string s)).

Definition str_join (sep : string) (parts : list string) : string :=
  to_string (join (of_string sep) (of_string <$> parts)).

(** *** state_manager.py *)

Section StateManager.
Variable temp_dir : path.

Definition state_file : path := temp_dir ++ ["workflow_state.json"].

(** [state.get(key, fallback)] on the dictionary that [json.load] built:
    of two fields with one name the later one counts. *)
Definition dict_get (key : string) (fallback : json)
  (fields : list (string * json)) : json :=
  foldl (fun found field =>
           if bool_decide (field.1 = key) then field.2 else found)
        fallback fields.

(** [get_current_state].  A missing file is [NOT_STARTED]; a file that
    cannot be opened or parsed, or whose document is not a dictionary,
    raises inside the [try] and gives [UNKNOWN]. *)
Definition get_current_state (w : files) : json :=
  match w !! state_file with
  | None => JStr "NOT_STARTED"
  | Some (File (Json (JObj fields))) =>
      dict_get "current_step" (JStr "UNKNOWN") fields
  | Some _ => JStr "UNKNOWN"
  end.

(** [value == expected] for a JSON value and a Python string. *)
Definition json_is_str (value : json) (expected : string) : bool :=
  match value with
  | JStr s => bool_decide (s = expected)
  | _ => false
  end.

(** [update_state(step, details)]; [now] is [datetime.now().isoformat()]
    and a missing [details] is the empty dictionary. *)
Definition update_state (now : string) (step : string)
  (details : option json) (w : files) : files :=
  write state_file
    (Json (JObj [("current_step", JStr step);
                 ("last_updated", JStr now);
                 ("details", default (JObj []) details)]))
    (mkdir temp_dir w).

(** [validate_state_transition(expected_state)]. *)
Definition validate_state_transition (expected_state : string) (w : files)
  : bool :=
  json_is_str (get_current_state w) expected_state.

(** [reset_workflow]. *)
Definition reset_workflow (now : string) (w : files) : files :=
  let w := if path_exists state_file w then unlink state_file w else w in
  update_state now "NOT_STARTED" None w.

End StateManager.

(** *** workflow_utils.py *)

(** [WorkflowUtils.check_required_files]: the required entries that are
    missing from [temp_dir]. *)
Definition check_required_files (temp_dir : path) (required_files : list string)
  (w : files) : list string :=
  List.filter (fun file_path => negb (path_exists (temp_dir ++ [file_path]) w))
    required_files.

(** *** interactive_reviewer.py *)

(** A suggestion as [_parse_suggestions_from_section] reads it back from the
    analysis report; its [type] is always [database_reference]. *)
Record suggestion := {
  sg_original : string;
  sg_suggested : string;
  sg_is_safe : bool;
  sg_context : string;
  sg_reason : string;
  sg_risk_level : string
}.

(** [content.find(sub, start)]. *)
Definition find_from (sub s : text) (start : nat) : option nat :=
  (fun i => start + i) <$> find sub (skipn start s).

(** [_extract_section]. *)
Definition _extract_section (content : text) (section_name : string)
  : option text :=
  let start_marker := of_string ("### " +:+ section_name) in
  let end_marker := of_string "### " in
  match find start_marker content with
  | None => None
  | Some start_pos =>
      match find_from end_marker content (start_pos + length start_marker) with
      | None => Some (skipn start_pos content)
      | Some end_pos => Some (slice start_pos end_pos content)
      end
  end.

(** The state of the loop of [_parse_suggestions_from_section].  The source
    appends the dictionary [current_suggestion] to the list and goes on
    writing its context and reason, so the entries appended since the
    dictionary was made are the dictionary itself: [aliases] counts them and
    [flush] puts them in the list with the final fields. *)
Record parse_state := {
  finished : list suggestion;
  aliases : nat;
  current_suggestion : option suggestion
}.

Definition flush (st : parse_state) : list suggestion :=
  match current_suggestion st with
  | Some cur => finished st ++ replicate (aliases st) cur
  | None => finished st
  end.

Definition arrow : string := " → ".

Definition set_context (cur : suggestion) (v : string) : suggestion :=
  {| sg_original := sg_original cur; sg_suggested := sg_suggested cur;
     sg_is_safe := sg_is_safe cur; sg_context := v;
     sg_reason := sg_reason cur; sg_risk_level := sg_risk_level cur |}.

Definition set_reason (cur : suggestion) (v : string) : suggestion :=
  {| sg_original := sg_original cur; sg_suggested := sg_suggested cur;
     sg_is_safe := sg_is_safe cur; sg_context := sg_context cur;
     sg_reason := v; sg_risk_level := sg_risk_level cur |}.

Definition star : ascii := "*"%char.
Definition backtick : ascii := "`"%char.

(** One turn of the loop on a line; [None] when [parts[0].split('. ')[1]]
    raises [IndexError]. *)
Definition parse_line (is_safe : bool) (st : parse_state) (raw_line : text)
  : option parse_state :=
  let line := strip raw_line in
  let numbered :=
    match line with
    | c :: _ => is_digit c && contains (of_string ". ") line
    | [] => false
    end in
  if numbered then
    let st :=
      match current_suggestion st with
      | Some _ => {| finished := finished st; aliases := S (aliases st);
                     current_suggestion := current_suggestion st |}
      | None => st
      end in
    match split (of_string arrow) line with
    | [part0; part1] =>
        match split (of_string ". ") part0 !! 1 with
        | None => None
        | Some piece =>
            Some {| finished := flush st; aliases := 0;
                    current_suggestion :=
                      Some {| sg_original := to_string (strip_char star piece);
                              sg_suggested := to_string (strip_char star part1);
                              sg_is_safe := is_safe;
                              sg_context := "";
                              sg_reason := "";
                              sg_risk_level :=
                                if is_safe then "LOW" else "MEDIUM" |} |}
        end
    | _ => Some st
    end
  else
    match current_suggestion st with
    | Some cur =>
        if startswith (of_string "- Context:") line then
          match split (of_string "Context:") line !! 1 with
          | None => None
          | Some v =>
              Some {| finished := finished st; aliases := aliases st;
                      current_suggestion :=
                        Some (set_context cur
                                (to_string (strip_char backtick (strip v)))) |}
          end
        else if startswith (of_string "- Reason:") line then
          match split (of_string "Reason:") line !! 1 with
          | None => None
          | Some v =>
              Some {| finished := finished st; aliases := aliases st;
                      current_suggestion :=
                        Some (set_reason cur (to_string (strip v))) |}
          end
        else Some st
    | None => Some st
    end.

Fixpoint parse_lines (is_safe : bool) (st : parse_state) (lines : list text)
  : option parse_state :=
  match lines with
  | [] => Some st
  | line :: rest =>
      match parse_line is_safe st line with
      | Some st' => parse_lines is_safe st' rest
      | None => None
      end
  end.

(** [_parse_suggestions_from_section]. *)
Definition _parse_suggestions_from_section (section_content : text)
  (is_safe : bool) : option (list suggestion) :=
  let lines := split [ "010"%char ] section_content in
  match parse_lines is_safe
          {| finished := []; aliases := 0; current_suggestion := None |}
          lines with
  | None => None
  | Some st =>
      Some (flush
              match current_suggestion st with
              | Some _ => {| finished := finished st; aliases := S (aliases st);
                             current_suggestion := current_suggestion st |}
              | None => st
              end)
  end.

(** [_parse_analysis_report], on the text of the report. *)
Definition _parse_analysis_report (content : string)
  : option (list suggestion) :=
  let content := of_string content in
  match
    match _extract_section content "Safe to Template" with
    | Some safe_section => _parse_suggestions_from_section safe_section true
    | None => Some []
    end
  with
  | None => None
  | Some safe =>
      match
        match _extract_section content "Needs Manual Review" with
        | Some unsafe_section =>
            _parse_suggestions_from_section unsafe_section false
        | None => Some []
        end
      with
      | None => None
      | Some unsafe => Some (safe ++ unsafe)
      end
  end.

(** The answer read by [input(...).strip().lower()]. *)
Definition answer (line : string) : string :=
  to_string (lower (strip (of_string line))).

Definition one_of (choices : list string) (choice : string) : bool :=
  bool_decide (choice ∈ choices).

(** The two [while True] loops of [_review_single_suggestion]: the lines the
    operator types are read until one is a decision; help and invalid input
    ask again.  [None] is the [EOFError] of [input] when no line is left. *)
Fixpoint ask (is_safe : bool) (inputs : list string)
  : option (string * list string) :=
  match inputs with
  | [] => None
  | line :: rest =>
      let choice := answer line in
      if one_of (if is_safe then [""; "y"; "yes"] else ["y"; "yes"]) choice
      then Some ("accept", rest)
      else if one_of (if is_safe then ["n"; "no"] else [""; "n"; "no"]) choice
      then Some ("reject", rest)
      else if one_of ["q"; "quit"] choice then Some ("quit", rest)
      else ask is_safe rest
  end.

(** [_review_single_suggestion]: the record and the input that is left. *)
Definition _review_single_suggestion (now : string) (suggestion_num : nat)
  (s : suggestion) (inputs : list string) : option (decision * list string) :=
  match ask (sg_is_safe s) inputs with
  | None => None
  | Some (verdict, inputs) =>
      let record notes :=
        {| d_suggestion_num := suggestion_num;
           d_original := sg_original s;
           d_suggested := sg_suggested s;
           d_context := sg_context s;
           d_reason := sg_reason s;
           d_is_safe := sg_is_safe s;
           d_risk_level := sg_risk_level s;
           d_decision := verdict;
           d_reviewed_at := now;
           d_user_notes := notes |} in
      if bool_decide (verdict = "reject") then
        match inputs with
        | [] => None
        | line :: inputs => Some (record (str_strip line), inputs)
        end
      else Some (record "", inputs)
  end.

(** How the loop over the suggestions ends: all of them decided, or the
    operator quit (the list holds the decisions made so far and the quit
    record, as the local list of the source does), or [input] raised. *)
Inductive session :=
| Completed (decisions : list decision)
| Cancelled (decisions : list decision)
| EndOfInput.

Fixpoint review_all (now : string) (i : nat) (suggestions : list suggestion)
  (inputs : list string) (decisions : list decision) : session :=
  match suggestions with
  | [] => Completed decisions
  | s :: rest =>
      match _review_single_suggestion now i s inputs with
      | None => EndOfInput
      | Some (d, inputs) =>
          let decisions := decisions ++ [d] in
          if bool_decide (d_decision d = "quit") then Cancelled decisions
          else review_all now (S i) rest inputs decisions
      end
  end.

Definition count_decisions (verdict : string) (decisions : list decision)
  : nat :=
  length (List.filter (fun d => bool_decide (d_decision d = verdict)) decisions).

Section Reviewer.
Variable temp_dir : path.

(** The markdown that [TemplatingAnalyzer.analyze_schema_files()] writes when
    it is called without [db_base]: no database reference is looked for, and
    the report depends on the name of the schema, the time and the raw SQL
    files (name and text).  Its wording is left open. *)
Variable render_report : string -> string -> list (string * string) -> string.

Definition analysis_dir : path := temp_dir ++ ["analysis"].
Definition suggested_dir : path := temp_dir ++ ["suggested"].
Definition raw_dir : path := temp_dir ++ ["raw"].
Definition final_dir : path := temp_dir ++ ["final"].
Definition decisions_file : path := temp_dir ++ ["decisions.json"].
Definition analysis_file : path := analysis_dir ++ ["templating_analysis.md"].

(** The texts of the files named [names] in [dir]; [None] when one of them
    cannot be read. *)
Definition read_all (dir : path) (names : list string) (w : files)
  : option (list (string * string)) :=
  mapM (fun name => (fun t => (name, t)) <$> read_text (dir ++ [name]) w) names.

(** [analyze_schema_files()] without [db_base]: it raises when there is no
    raw directory; else it writes the report and makes the directory of the
    suggested versions, in which it writes nothing since no file has a
    suggestion. *)
Definition analyze_schema_files (now : string) (w : files) : option files :=
  if negb (path_exists raw_dir w) then None
  else
    match read_all raw_dir (glob_sql raw_dir w) w with
    | None => None
    | Some sources =>
        let schema_name := List.last (removelast temp_dir) "" in
        let w := mkdir analysis_dir w in
        let w := write analysis_file
                   (Text (render_report schema_name now sources)) w in
        Some (mkdir suggested_dir w)
    end.

(** [_load_suggestions]; the outer [None] is an exception. *)
Definition _load_suggestions (w : files) : option (list suggestion) :=
  if negb (path_exists suggested_dir w) then Some []
  else if path_exists analysis_file w then
    match read_text analysis_file w with
    | Some report => _parse_analysis_report report
    | None => None
    end
  else Some [].

(** [_save_decisions]. *)
Definition _save_decisions (decisions : list decision) (w : files) : files :=
  write decisions_file (Decisions decisions) w.

(** [_complete_review]. *)
Definition _complete_review (now : string) (decisions : list decision)
  (w : files) : files :=
  let w := _save_decisions decisions w in
  update_state temp_dir now "REVIEW_COMPLETE"
    (Some (JObj
       [("reviewed_at", JStr now);
        ("total_suggestions", JNum (Z.of_nat (length decisions)));
        ("accepted", JNum (Z.of_nat (count_decisions "accept" decisions)));
        ("rejected", JNum (Z.of_nat (count_decisions "reject" decisions)));
        ("quit_early",
         JBool (existsb (fun d => bool_decide (d_decision d = "quit"))
                  decisions))]))
    w.

(** [get_decisions]: the decisions that are persisted. *)
Definition get_decisions (w : files) : option (list decision) :=
  match w !! decisions_file with
  | None => Some []
  | Some (File (Decisions ds)) => Some ds
  | Some _ => None
  end.

(** What [start_review] does between the check of the state and the loop:
    the analysis when the report is missing, then the checks of the raw files
    and of the report, then the suggestions. *)
Inductive prepared :=
| Ready (w : files) (suggestions : list suggestion)
| GiveUp (w : files)
| Broken.

Definition prepare_review (now : string) (w : files) : prepared :=
  match
    if negb (path_exists analysis_file w) then analyze_schema_files now w
    else Some w
  with
  | None => Broken
  | Some w =>
      if negb (path_exists raw_dir w)
         || bool_decide (glob_sql raw_dir w = [])
      then GiveUp w
      else if negb (path_exists analysis_file w) then GiveUp w
      else
        match _load_suggestions w with
        | None => Broken
        | Some suggestions => Ready w suggestions
        end
  end.

(** [start_review]; [inputs] are the lines the operator types. *)
Definition start_review (now : string) (inputs : list string) (w : files)
  : outcome :=
  if negb (validate_state_transition temp_dir "EXTRACTION_COMPLETE" w)
  then Done false w
  else
    match prepare_review now w with
    | Broken => Raised
    | GiveUp w => Done false w
    | Ready w [] => Done true (_complete_review now [] w)
    | Ready w suggestions =>
        match review_all now 1 suggestions inputs [] with
        | EndOfInput => Raised
        | Cancelled _ => Done false w
        | Completed decisions => Done true (_complete_review now decisions w)
        end
    end.

End Reviewer.

(** *** final_generator.py *)

Section Generator.
Variable temp_dir : path.

(** [_load_decisions]: the inner [None] stands for a document that is JSON
    but not a list of decision records, which the embedding does not follow;
    a file that cannot be opened or parsed gives the empty list. *)
Definition _load_decisions (w : files) : option (list decision) :=
  match w !! decisions_file temp_dir with
  | None => Some []
  | Some (File (Decisions ds)) => Some ds
  | Some (File (Json _)) => None
  | Some _ => Some []
  end.

Definition without_decisions_header (schema_name now : string) : string :=
  unlines
    ["-- FINAL VERSION: " +:+ schema_name +:+ " Schema";
     "-- Generated at: " +:+ now;
     "-- Note: No templating decisions were made - using raw extraction";
     "-- ⚠️  This version may contain environment-specific references";
     ""].

(** The loop of [_generate_final_without_decisions] on one file. *)
Definition copy_with_banner (schema_name now : string) (w : option files)
  (name : string) : option files :=
  match w with
  | None => None
  | Some w =>
      let final_file := final_dir temp_dir ++ [name] in
      match copy2 (raw_dir temp_dir ++ [name]) final_file w with
      | None => None
      | Some w =>
          match read_text final_file w with
          | None => None
          | Some content =>
              Some (write final_file
                      (Text (without_decisions_header schema_name now
                             +:+ content)) w)
          end
      end
  end.

Definition names_json (names : list string) : json := JArr (JStr <$> names).

(** [_generate_final_without_decisions]. *)
Definition _generate_final_without_decisions (schema_name now : string)
  (w : files) : option files :=
  let w := mkdir (final_dir temp_dir) w in
  match foldl (copy_with_banner schema_name now) (Some w)
          (glob_sql (raw_dir temp_dir) w) with
  | None => None
  | Some w =>
      Some (update_state temp_dir now "FINAL_GENERATED"
              (Some (JObj
                 [("generated_at", JStr now);
                  ("method", JStr "no_decisions");
                  ("files_generated",
                   names_json (glob_sql (final_dir temp_dir) w))]))
              w)
  end.

(** [file_decisions[file_name].append(decision)], with the list made on the
    first use of the name. *)
Definition append_decision (file_decisions : gmap string (list decision))
  (file_name : string) (d : decision) : gmap string (list decision) :=
  <[file_name := default [] (file_decisions !! file_name) ++ [d]]>
    file_decisions.

(** [_group_decisions_by_file]: every decision goes to every SQL file of the
    raw directory. *)
Definition _group_decisions_by_file (decisions : list decision) (w : files)
  : gmap string (list decision) :=
  foldl
    (fun file_decisions d =>
       foldl (fun file_decisions file_name =>
                append_decision file_decisions file_name d)
             file_decisions (glob_sql (raw_dir temp_dir) w))
    ∅ decisions.

(** An entry of [applied_changes]. *)
Record applied_change := {
  ch_original : string;
  ch_suggested : string;
  ch_context : string;
  ch_reason : string
}.

(** The body of the loop over the decisions of one file: an accepted
    decision replaces every occurrence of its original text; it is listed in
    the header when the suggested text occurs in the result. *)
Definition apply_decision (acc : string * list applied_change) (d : decision)
  : string * list applied_change :=
  let '(content, applied_changes) := acc in
  if bool_decide (d_decision d = "accept") then
    let content := str_replace (d_original d) (d_suggested d) content in
    let new_count := str_count (d_suggested d) content in
    if 0 <? new_count then
      (content,
       applied_changes ++
         [{| ch_original := d_original d; ch_suggested := d_suggested d;
             ch_context := d_context d; ch_reason := d_reason d |}])
    else (content, applied_changes)
  else (content, applied_changes).

Fixpoint change_lines (i : nat) (changes : list applied_change) : list string :=
  match changes with
  | [] => []
  | change :: rest =>
      ("-- " +:+ str_of_nat i +:+ ". " +:+ ch_original change +:+ arrow
         +:+ ch_suggested change)
      :: ("--    Context: " +:+ ch_context change)
      :: ("--    Reason: " +:+ ch_reason change)
      :: change_lines (S i) rest
  end.

(** [_generate_final_header]. *)
Definition _generate_final_header (schema_name now file_name : string)
  (applied_changes : list applied_change) : string :=
  unlines
    ["-- FINAL VERSION: " +:+ schema_name +:+ " Schema";
     "-- File: " +:+ file_name;
     "-- Generated at: " +:+ now;
     "-- Based on: " +:+ str_of_nat (length applied_changes)
       +:+ " templating decisions";
     ""]
  +:+ match applied_changes with
      | [] =>
          unlines
            ["-- No templating changes applied - using raw extraction"; ""]
      | _ =>
          unlines
            (["-- APPLIED TEMPLATING CHANGES:"]
             ++ change_lines 1 applied_changes ++ [""])
      end
  +:+ unlines
        ["-- ==========================================";
         "-- SCHEMA CONTENT BELOW";
         "-- ==========================================";
         ""].

(** The loop of [_generate_final_with_decisions] on one file. *)
Definition write_final (schema_name now : string)
  (file_decisions : gmap string (list decision)) (w : option files)
  (file_name : string) : option files :=
  match w with
  | None => None
  | Some w =>
      match read_text (raw_dir temp_dir ++ [file_name]) w with
      | None => None
      | Some content =>
          let '(content, applied_changes) :=
            match file_decisions !! file_name with
            | Some ds => foldl apply_decision (content, []) ds
            | None => (content, [])
            end in
          let header :=
            _generate_final_header schema_name now file_name applied_changes in
          Some (write (final_dir temp_dir ++ [file_name])
                  (Text (header +:+ content)) w)
      end
  end.

(** [_generate_final_with_decisions]. *)
Definition _generate_final_with_decisions (schema_name now : string)
  (decisions : list decision) (w : files) : option files :=
  let w := mkdir (final_dir temp_dir) w in
  let file_decisions := _group_decisions_by_file decisions w in
  match foldl (write_final schema_name now file_decisions) (Some w)
          (glob_sql (raw_dir temp_dir) w) with
  | None => None
  | Some w =>
      Some (update_state temp_dir now "FINAL_GENERATED"
              (Some (JObj
                 [("generated_at", JStr now);
                  ("method", JStr "with_decisions");
                  ("total_decisions", JNum (Z.of_nat (length decisions)));
                  ("accepted_decisions",
                   JNum (Z.of_nat (count_decisions "accept" decisions)));
                  ("files_generated",
                   names_json (glob_sql (final_dir temp_dir) w))]))
              w)
  end.

Definition of_option (r : option files) : outcome :=
  match r with
  | Some w => Done true w
  | None => Raised
  end.

(** [generate_final_version]. *)
Definition generate_final_version (schema_name now : string) (w : files)
  : outcome :=
  if negb (validate_state_transition temp_dir "REVIEW_COMPLETE" w)
  then Done false w
  else
    match check_required_files temp_dir ["raw"; "decisions.json"] w with
    | _ :: _ => Done false w
    | [] =>
        match _load_decisions w with
        | None => Raised
        | Some [] => of_option (_generate_final_without_decisions schema_name now w)
        | Some decisions =>
            of_option
              (_generate_final_with_decisions schema_name now decisions w)
        end
    end.

End Generator.

(** *** commit_manager.py *)

Section Commit.
Variable temp_dir : path.

Definition main_schema_dir : path := removelast temp_dir.

(** The loop of [_perform_commit] on one file. *)
Definition commit_file (w : option files) (name : string) : option files :=
  match w with
  | None => None
  | Some w => copy2 (final_dir temp_dir ++ [name]) (main_schema_dir ++ [name]) w
  end.

(** [_perform_commit]. *)
Definition _perform_commit (now : string) (final_files : list string)
  (w : files) : option files :=
  match foldl commit_file (Some w) final_files with
  | None => None
  | Some w =>
      Some (update_state temp_dir now "COMMITTED"
              (Some (JObj
                 [("committed_at", JStr now);
                  ("committed_files", names_json final_files)]))
              w)
  end.

(** [commit_schema]. *)
Definition commit_schema (now : string) (dry_run : bool) (w : files)
  : outcome :=
  if negb (validate_state_transition temp_dir "FINAL_GENERATED" w)
  then Done false w
  else if negb (path_exists (final_dir temp_dir) w) then Done false w
  else
    match glob_sql (final_dir temp_dir) w with
    | [] => Done false w
    | final_files =>
        if dry_run then Done true w
        else of_option (_perform_commit now final_files w)
    end.

End Commit.

(** *** safe_extractor.py *)

Section Extractor.
Variable output_root : string.
Variable schema_name : string.
Variable database : string.

Definition extractor_temp_dir : path := [output_root; schema_name; "temp"].

(** The first statements of [extract_safe]: the clean start.  The old
    temporary directory goes, the four directories are made and the state is
    reset. *)
Definition fresh_start (now : string) (w : files) : files :=
  let temp_dir := extractor_temp_dir in
  let w := if path_exists temp_dir w then rmtree temp_dir w else w in
  let w := mkdir (raw_dir temp_dir) w in
  let w := mkdir (analysis_dir temp_dir) w in
  let w := mkdir (suggested_dir temp_dir) w in
  let w := mkdir (final_dir temp_dir) w in
  reset_workflow temp_dir now w.

Definition ddl_file_name : string :=
  "V1000__baseline_from_" +:+ database +:+ ".sql".
Definition grant_file_name : string :=
  "V1001__grants_from_" +:+ database +:+ ".sql".

Definition ddl_file_text (timestamp : string) (templated_ddl : list string)
  : string :=
  unlines
    ["-- Exported from " +:+ database +:+ " at " +:+ timestamp;
     "-- Environment references templated for multi-environment deployment";
     "-- NOTE: Only current database references are templated, cross-database references remain as-is"]
  +:+ match templated_ddl with
      | [] => unlines ["-- No objects found in schema"]
      | _ => str_join nl templated_ddl
      end.

Definition grant_file_text (timestamp : string) (grant_statements : list string)
  : string :=
  unlines
    ["-- Grants exported from " +:+ database +:+ " at " +:+ timestamp;
     "-- Environment references templated for multi-environment deployment"]
  +:+ match grant_statements with
      | [] => unlines ["-- No grants found for schema"]
      | _ => str_join nl grant_statements
      end.

(** What the warehouse gives to [extract_schemas] for the one schema asked
    for: the call raises (no connection, ...), or it yields the DDL
    statements, as they are written after templating, and the grant
    statements. *)
Inductive warehouse :=
| Unreachable
| Extracted (templated_ddl : list string) (grant_statements : list string).

(** One entry of the list that [extract_schemas] returns. *)
Record schema_result := {
  ddl_file : path;
  grant_file : path;
  object_count : nat;
  grant_count : nat
}.

(** [extract_schemas(..., schemas=[schema_name], output_dir=raw)]: the two
    files are written in [raw/<schema>]. *)
Definition extract_schemas (timestamp : string) (answer : warehouse)
  (w : files) : option (list schema_result * files) :=
  match answer with
  | Unreachable => None
  | Extracted templated_ddl grant_statements =>
      let schema_dir := raw_dir extractor_temp_dir ++ [schema_name] in
      let w := mkdir schema_dir w in
      let w := write (schema_dir ++ [ddl_file_name])
                 (Text (ddl_file_text timestamp templated_ddl)) w in
      let w := write (schema_dir ++ [grant_file_name])
                 (Text (grant_file_text timestamp grant_statements)) w in
      Some ([{| ddl_file := schema_dir ++ [ddl_file_name];
                grant_file := schema_dir ++ [grant_file_name];
                object_count := length templated_ddl;
                grant_count := length grant_statements |}], w)
  end.

(** The loop that moves the files of one result into [raw]. *)
Definition move_result (w : files) (r : schema_result) : files :=
  let raw := raw_dir extractor_temp_dir in
  let w :=
    if path_exists (ddl_file r) w
    then move (ddl_file r) (raw ++ [List.last (ddl_file r) ""]) w else w in
  if path_exists (grant_file r) w
  then move (grant_file r) (raw ++ [List.last (grant_file r) ""]) w else w.

(** The [try] block of [extract_safe]: whether it ended without an
    exception, and the files as it left them. *)
Definition try_extract (now timestamp : string) (answer : warehouse)
  (w : files) : bool * files :=
  match extract_schemas timestamp answer w with
  | None => (false, w)
  | Some ([], w) => (false, w)
  | Some ((schema_result :: _) as results, w) =>
      if (object_count schema_result =? 0) && (grant_count schema_result =? 0)
      then (false, w)
      else
        let w := foldl move_result w results in
        let temp_dir := extractor_temp_dir in
        (true,
         update_state temp_dir now "EXTRACTION_COMPLETE"
           (Some (JObj
              [("extracted_at", JStr now);
               ("database", JStr database);
               ("schema", JStr schema_name);
               ("files",
                JArr ((fun name =>
                         JStr (path_string (raw_dir temp_dir ++ [name])))
                      <$> glob_sql (raw_dir temp_dir) w))]))
           w)
  end.

(** [extract_safe]: the clean start, then the extraction; when the [try]
    block raises, the temporary directory is removed and the answer is
    [False]. *)
Definition extract_safe (now timestamp : string) (answer : warehouse)
  (w : files) : outcome :=
  let w := fresh_start now w in
  match try_extract now timestamp answer w with
  | (true, w) => Done true w
  | (false, w) =>
      Done false
        (if path_exists extractor_temp_dir w
         then rmtree extractor_temp_dir w else w)
  end.

End Extractor.

End Workflow.

(** * More of the sources *)

(** ** state_manager.py and workflow_utils.py: the guide through the
    workflow *)

Module Guide.
Import Text Workflow.

(** An entry of [WORKFLOW_STEPS]. *)
Record step_info := {
  next : string;
  script : string;
  description : string
}.

Definition WORKFLOW_STEPS : list (string * step_info) :=
  [("NOT_STARTED",
    {| next := "EXTRACTION_COMPLETE";
       script := "export_schema.py --workflow extract";
       description := "Start extraction" |});
   ("EXTRACTION_COMPLETE",
    {| next := "REVIEW_COMPLETE";
       script := "review_templating.py";
       description := "Review templating suggestions" |});
   ("REVIEW_COMPLETE",
    {| next := "FINAL_GENERATED";
       script := "export_schema.py --workflow generate";
       description := "Generate final version" |});
   ("FINAL_GENERATED",
    {| next := "COMMITTED";
       script := "commit_schema.py";
       description := "Commit to main schema folder" |})].

(** [WORKFLOW_STEPS[state]] for a state that is a key. *)
Fixpoint step_of (state : string) (steps : list (string * step_info))
  : option step_info :=
  match steps with
  | [] => None
  | (key, info) :: rest =>
      if bool_decide (key = state) then Some info else step_of state rest
  end.

(** The result of a method that may raise. *)
Inductive attempt (A : Type) :=
| Returned (value : A)
| Raises.
Arguments Returned {A} value.
Arguments Raises {A}.

(** [get_next_step_info].  The state read from the file is any JSON value;
    [current_state in self.WORKFLOW_STEPS] is false for a value that is not
    a string, and raises [TypeError] for a list or a dictionary, which
    cannot be hashed. *)
Definition get_next_step_info (temp_dir : path) (w : files)
  : attempt (option step_info) :=
  match get_current_state temp_dir w with
  | JStr state => Returned (step_of state WORKFLOW_STEPS)
  | JArr _ | JObj _ => Raises
  | _ => Returned None
  end.

(** The three answers of [validate_workflow_prerequisites]: [(True, None)],
    and [False] with the message about the missing extraction or with the
    message about the state, which quotes the state found. *)
Inductive prerequisites :=
| Satisfied
| NoExtraction
| WrongState (current_state : json).

(** [WorkflowUtils.validate_workflow_prerequisites]. *)
Definition validate_workflow_prerequisites (expected_state : string)
  (temp_dir : path) (w : files) : prerequisites :=
  if negb (path_exists temp_dir w) then NoExtraction
  else
    let current_state := get_current_state temp_dir w in
    if negb (json_is_str current_state expected_state)
    then WrongState current_state
    else Satisfied.


(** [SafeSchemaExtractor.cleanup]. *)
Definition cleanup (output_root schema_name : string) (w : files) : files :=
  let temp_dir := extractor_temp_dir output_root schema_name in
  if path_exists temp_dir w then rmtree temp_dir w else w.

(** [SafeSchemaExtractor.is_extraction_complete],
    [FinalVersionGenerator.is_final_generated] and
    [CommitManager.is_committed]. *)
Definition is_extraction_complete (output_root schema_name : string)
  (w : files) : bool :=
  validate_state_transition (extractor_temp_dir output_root schema_name)
    "EXTRACTION_COMPLETE" w.

Definition is_final_generated (temp_dir : path) (w : files) : bool :=
  validate_state_transition temp_dir "FINAL_GENERATED" w.

Definition is_committed (temp_dir : path) (w : files) : bool :=
  validate_state_transition temp_dir "COMMITTED" w.

End Guide.

(** ** schema_config.py *)

Module Config.
Import Text.

(** [SCHEMA_OBJECT_TYPES]: the object types in dependency order, each with
    its [SHOW] command. *)
Definition SCHEMA_OBJECT_TYPES : list (string * string) :=
  [("FILE FORMAT", "SHOW FILE FORMATS IN SCHEMA {db}.{schema}");
   ("SEQUENCE", "SHOW SEQUENCES IN SCHEMA {db}.{schema}");
   ("STAGE", "SHOW STAGES IN SCHEMA {db}.{schema}");
   ("TABLE", "SHOW TABLES IN SCHEMA {db}.{schema}");
   ("VIEW", "SHOW VIEWS IN SCHEMA {db}.{schema}");
   ("MATERIALIZED VIEW", "SHOW MATERIALIZED VIEWS IN SCHEMA {db}.{schema}");
   ("DYNAMIC TABLE", "SHOW DYNAMIC TABLES IN SCHEMA {db}.{schema}");
   ("STREAM", "SHOW STREAMS IN SCHEMA {db}.{schema}");
   ("PIPE", "SHOW PIPES IN SCHEMA {db}.{schema}");
   ("TASK", "SHOW TASKS IN SCHEMA {db}.{schema}")].

Definition get_object_types : list (string * string) := SCHEMA_OBJECT_TYPES.

Definition system_prefixes : list string := ["SYSTEM$"; "INFORMATION_SCHEMA"].

(** [is_user_defined_object]; a missing name is [None]. *)
Definition is_user_defined_object (obj_name : option string) : bool :=
  match obj_name with
  | None => false
  | Some EmptyString => false
  | Some name =>
      negb (existsb
              (fun prefix =>
                 startswith (of_string prefix) (upper (of_string name)))
              system_prefixes)
  end.

End Config.

(** ** utils/extraction.py: the statements read from the warehouse *)

Module Extraction.
Import Text Config.

(** The clean-up of one DDL in [extract_schema_objects]:
    [ddl = ddl.strip()], then a semicolon is added unless the text ends with
    one. *)
Definition clean_up_ddl (ddl : string) : string :=
  let ddl := to_string (strip (of_string ddl)) in
  if endswith (of_string ";") (of_string ddl) then ddl else ddl +:+ ";".

(** What the cursor answers.  [show obj_type] is the list of the [name]
    entries of the rows of the [SHOW] command of that object type, [None]
    when the command raises; [get_ddl obj_type obj_name] is the text that
    [GET_DDL] returns, [None] when the query raises or returns no text. *)
Record catalog := {
  show : string -> option (list (option string));
  get_ddl : string -> string -> option string
}.

(** The inner loop of [extract_schema_objects], for one row. *)
Definition object_statement (c : catalog) (obj_type : string)
  (obj_name : option string) : option string :=
  match obj_name with
  | Some name =>
      if is_user_defined_object obj_name
      then clean_up_ddl <$> get_ddl c obj_type name
      else None
  | None => None
  end.

(** [extract_schema_objects]. *)
Definition extract_schema_objects (c : catalog) : list string :=
  flat_map
    (fun entry =>
       match show c entry.1 with
       | Some objects => omap (object_statement c entry.1) objects
       | None => []
       end)
    get_object_types.

End Extraction.

(** * Properties *)

Import Text Normalize Compare Workflow.

(** ** Vocabulary of the statements *)

(** The directories that [mkdir_from base rest] may create. *)
Fixpoint created (base : path) (rest : list string) : list path :=
  match rest with
  | [] => []
  | name :: rest' => (base ++ [name]) :: created (base ++ [name]) rest'
  end.

(** A file system is a tree when every ancestor of a path that exists,
    exists. *)
Definition ancestors_exist (w : files) : Prop :=
  forall p q : path, p ≠ [] -> p `prefix_of` q -> is_Some (w !! q) ->
    is_Some (w !! p).

(** The state file cannot be read as a state: it is not a file, or not JSON,
    or not a dictionary, or a dictionary without [current_step]. *)
Definition unreadable_state (n : node) : Prop :=
  match n with
  | File (Json (JObj fields)) => Forall (fun f => f.1 ≠ "current_step") fields
  | _ => True
  end.


(** A file system in which the workflow of schema [APP] stands at
    [FINAL_GENERATED]. *)
Definition example_temp_dir : path := ["schemas"; "APP"; "temp"].


Definition example_corrupt : files :=
  write (state_file example_temp_dir) (Text "{ not json")
    (mkdir example_temp_dir ∅).


(** A file system at [EXTRACTION_COMPLETE] whose analysis report lists two
    suggestions, the first safe and the second not. *)
Definition example_report : string :=
  unlines
    ["## Templating Suggestions";
     "";
     "### Safe to Template";
     "";
     "1. **PLATFORM_SIT** → **{{DB_BASE}}_{{ENV}}**";
     "   - Context: `SELECT * FROM PLATFORM_SIT.APP.T`";
     "   - Reason: Database reference in FROM/JOIN clause - safe to template";
     "";
     "### Needs Manual Review";
     "";
     "1. **PLATFORM_QA** → **{{DB_BASE}}_{{ENV}}**";
     "   - Context: `CREATE TABLE PLATFORM_QA.APP.T (A INT)`";
     "   - Reason: Database reference in table/view name - do not template";
     "   - Risk: MEDIUM";
     ""].

Definition example_raw_sql : string :=
  "CREATE VIEW V AS SELECT * FROM PLATFORM_SIT.APP.T;".

Definition example_extracted : files :=
  write (analysis_file example_temp_dir) (Text example_report)
    (mkdir (analysis_dir example_temp_dir)
       (mkdir (suggested_dir example_temp_dir)
          (write (raw_dir example_temp_dir ++ ["V1000__baseline.sql"])
             (Text example_raw_sql)
             (mkdir (raw_dir example_temp_dir)
                (update_state example_temp_dir "t0" "EXTRACTION_COMPLETE" None
                   ∅))))).

Definition no_report (_ _ : string) (_ : list (string * string)) : string := "".

Definition example_accept : decision :=
  {| d_suggestion_num := 1;
     d_original := "PLATFORM_SIT";
     d_suggested := "{{DB_BASE}}_{{ENV}}";
     d_context := "SELECT * FROM PLATFORM_SIT.APP.T";
     d_reason := "Database reference in FROM/JOIN clause - safe to template";
     d_is_safe := true;
     d_risk_level := "LOW";
     d_decision := "accept";
     d_reviewed_at := "t1";
     d_user_notes := "" |}.

Definition example_quit : decision :=
  {| d_suggestion_num := 2;
     d_original := "PLATFORM_QA";
     d_suggested := "{{DB_BASE}}_{{ENV}}";
     d_context := "CREATE TABLE PLATFORM_QA.APP.T (A INT)";
     d_reason := "Database reference in table/view name - do not template";
     d_is_safe := false;
     d_risk_level := "MEDIUM";
     d_decision := "quit";
     d_reviewed_at := "t1";
     d_user_notes := "" |}.


Definition example_reject : decision :=
  {| d_suggestion_num := 2;
     d_original := "PLATFORM_QA";
     d_suggested := "{{DB_BASE}}_{{ENV}}";
     d_context := "CREATE TABLE PLATFORM_QA.APP.T (A INT)";
     d_reason := "Database reference in table/view name - do not template";
     d_is_safe := false;
     d_risk_level := "MEDIUM";
     d_decision := "reject";
     d_reviewed_at := "t1";
     d_user_notes := "keep" |}.

Definition example_grants_sql : string :=
  "GRANT SELECT ON PLATFORM_SIT.APP.T TO ROLE PLATFORM_QA_READER;".

(** The same file system after a review that accepted the first suggestion
    and rejected the second, with a second raw file. *)
Definition example_reviewed : files :=
  _complete_review example_temp_dir "t1" [example_accept; example_reject]
    (write (raw_dir example_temp_dir ++ ["V1001__grants.sql"])
       (Text example_grants_sql) example_extracted).

(** The four lists of [compare_objects], by kind of change. *)
Definition select (kind : change) (c : object_changes) : list string :=
  match kind with
  | New => new c
  | Removed => removed c
  | Modified => modified c
  | Unchanged => unchanged c
  end.

(** The normalized DDL that the loop of [compare_objects] computes for a key;
    a key without entry has the normal form of the empty text. *)
Definition normal_form (objects : gmap string string) (obj_key : string)
  : string :=
  normalize_ddl (strip_string (get_default objects obj_key)).

(** Every stored DDL has a normal form that is not empty. *)
Definition substantial (objects : gmap string string) : Prop :=
  forall obj_key ddl, objects !! obj_key = Some ddl -> normalize_ddl ddl ≠ "".

(** The steps of [normalize_ddl_text] after [strip (upper _)]. *)
Definition ddl_pipeline (s : text) : text :=
  strip (sub_var (remove_trailing_semicolon
    (squeeze is_equals (squeeze is_comma (squeeze is_punct
       (collapse_ws (remove_comments s))))))).

(** No white space at the head of a text. *)
Definition headed (s : text) : Prop :=
  match s with
  | [] => True
  | c :: _ => is_space c = false
  end.

(** A live schema whose table [FOO] could not be read (its DDL slot holds the
    error comment of [extract_current_state]), against a proposal that
    creates [FOO]. *)
Definition example_current_error : gmap string string :=
  {[ "TABLE:FOO" := "-- ERROR: SQL compilation error" ]}.

Definition example_proposed_foo : gmap string string :=
  {[ "TABLE:FOO" := "CREATE TABLE FOO (A INT)" ]}.

(** A live schema and a proposal, every DDL of which has a normal form. *)
Definition example_current : gmap string string :=
  {[ "TABLE:A" := "create table a (x int);";
     "VIEW:Z" := "create view z as select 1" ]}.

Definition example_proposed : gmap string string :=
  {[ "TABLE:A" := "CREATE TABLE   A(X INT)";
     "TABLE:B" := "create table b (y int)" ]}.





(** *** Shapes of normalized texts *)

(** [r] holds between [a], when there is one, and the first character of
    [s], when there is one. *)
Definition linked (r : ascii -> ascii -> bool) (a : option ascii) (s : text)
  : Prop :=
  match a, s with
  | Some a, b :: _ => r a b = true
  | _, _ => True
  end.

(** [r] holds between every two characters that follow each other in [s]. *)
Fixpoint adjacent (r : ascii -> ascii -> bool) (s : text) : Prop :=
  match s with
  | [] => True
  | a :: t => linked r (Some a) t /\ adjacent r t
  end.

(** Not two dashes, not two white spaces, no white space next to a character
    of [P]. *)
Definition no_dashes (a b : ascii) : bool := negb (is_dash a && is_dash b).
Definition no_spaces (a b : ascii) : bool := negb (is_space a && is_space b).
Definition apart (P : ascii -> bool) (a b : ascii) : bool :=
  negb (is_space a && P b) && negb (P a && is_space b).

(** The only white space is the space character. *)
Definition plain_space (c : ascii) : Prop := is_space c = true -> c = " "%char.

Definition upper_fixed (c : ascii) : Prop := upper_char c = c.

(** The pattern of [match_var] matches at no position of [s]. *)
Definition no_var (s : text) : Prop :=
  forall s1 s2 : text, s = s1 ++ s2 -> match_var s2 = None.

(** [s] does not end with a character of [P]. *)
Definition not_ending (P : ascii -> bool) (s : text) : Prop :=
  match last s with
  | Some c => P c = false
  | None => True
  end.

(** What [squeeze_from P after s] knows of the last character [a] it kept:
    it is a character of [P] whose white space is being dropped, or it is
    next to [s] in the text, or the white space at the head of [s] leads to a
    character of [P] and is being dropped; a kept white space never leads to
    a character of [P]. *)
Definition squeeze_inv (P : ascii -> bool) (r : ascii -> ascii -> bool)
  (a : option ascii) (after : bool) (s : text) : Prop :=
  match a with
  | None => after = false
  | Some a =>
      ((after = true /\ P a = true) \/ linked r (Some a) s \/
       (is_space a = false /\ next_is P s = true)) /\
      (is_space a = true -> next_is P s = false) /\
      (after = true -> P a = true)
  end.

(** The texts that the pattern of [match_var] matches. *)
Definition var_match (m : text) : Prop :=
  exists (w1 w2 w3 w4 w5 : text) (q1 q2 : ascii),
    forallb is_space w1 = true /\ forallb is_space w2 = true /\
    forallb is_space w3 = true /\ forallb is_space w4 = true /\
    forallb is_space w5 = true /\ is_quote q1 = true /\ is_quote q2 = true /\
    m = of_string "{{" ++ w1 ++ of_string "VAR" ++ w2 ++ of_string "(" ++ w3
        ++ q1 :: of_string "ENV" ++ q2 :: w4 ++ of_string ")" ++ w5
        ++ of_string "}}".

(** The letters of the replacement [SIT]. *)
Definition is_sit (c : ascii) : bool :=
  match c with
  | "S"%char | "I"%char | "T"%char => true
  | _ => false
  end.

(** The shape of the texts that [normalize_ddl_text] returns. *)
Record ddl_shape (y : text) : Prop := {
  shape_upper : Forall upper_fixed y;
  shape_plain : Forall plain_space y;
  shape_dashes : adjacent no_dashes y;
  shape_spaces : adjacent no_spaces y;
  shape_punct : adjacent (apart is_punct) y;
  shape_equals : adjacent (apart is_equals) y;
  shape_var : no_var y;
  shape_strip : strip y = y
}.

(** The shape of the texts that [normalize_grant_text] returns. *)
Record grant_shape (y : text) : Prop := {
  gshape_upper : Forall upper_fixed y;
  gshape_plain : Forall plain_space y;
  gshape_strip : strip y = y
}.

Definition no_quotes (s : text) : Prop :=
  Forall (fun c => is_quote c = false) s.

(** ** Vocabulary of the further properties *)

(** The class of a key when the two sides of the comparison change
    places. *)
Definition swap_change (c : change) : change :=
  match c with
  | New => Removed
  | Removed => New
  | Modified => Modified
  | Unchanged => Unchanged
  end.

(** A path that is neither at or below the directory [d] nor above it. *)
Definition outside (d p : path) : Prop :=
  ¬ d `prefix_of` p /\ ¬ p `prefix_of` d.

(** An operation on the file system that leaves the paths outside [d] as
    they are. *)
Definition confined (d : path) (f : files -> files) : Prop :=
  forall (w : files) (p : path), outside d p -> f w !! p = w !! p.




(** Two texts that differ at most in the case of their letters. *)
Definition same_text (a b : text) : Prop :=
  Forall2 (fun x y => Analyzer.same_letter x y = true) a b.

(** Whether the scan of [remove_comments_from] stands inside a comment
    after the text [s]. *)
Fixpoint comment_state (in_comment : bool) (s : text) : bool :=
  match s with
  | [] => in_comment
  | c :: t =>
      if in_comment then
        if is_newline c then comment_state false t else comment_state true t
      else if is_dash c && head_is is_dash t then comment_state true t
      else comment_state false t
  end.
(** Closed equations are settled by evaluation. *)
Ltac vm_refl :=
  match goal with
  | |- _ = ?b => vm_cast_no_check (@eq_refl _ b)
  end.

(** ** The file system *)

Lemma created_spec (base : path) (rest : list string) (p : path) :
  p ∈ created base rest ->
  p `prefix_of` (base ++ rest) /\ length base < length p.
Proof.
  revert base. induction rest as [|name rest IH]; intros base Hp; simpl in Hp.
  - by apply elem_of_nil in Hp.
  - apply elem_of_cons in Hp as [->|Hp].
    + split.
      * exists rest. by rewrite <- app_assoc.
      * rewrite length_app. simpl. lia.
    + apply IH in Hp as [Hpre Hlen]. split.
      * by rewrite <- app_assoc in Hpre.
      * rewrite length_app in Hlen. simpl in Hlen. lia.
Qed.


Lemma mkdir_from_lookup (base : path) (rest : list string) (w : files)
  (p : path) :
  mkdir_from base rest w !! p =
  match w !! p with
  | Some n => Some n
  | None => if decide (p ∈ created base rest) then Some Dir else None
  end.
Proof.
  revert base w. induction rest as [|name rest IH]; intros base w.
  - cbn [mkdir_from created]. destruct (w !! p); [done|].
    case_decide as Hin; [|done]. by apply not_elem_of_nil in Hin.
  - cbn [mkdir_from created]. rewrite IH.
    destruct (decide (p = base ++ [name])) as [->|Hne].
    + destruct (w !! (base ++ [name])) as [n|] eqn:Hw.
      * by rewrite Hw.
      * rewrite lookup_insert_eq. case_decide as Hin; [done|].
        exfalso. apply Hin, list_elem_of_here.
    + assert (Hw : (match w !! (base ++ [name]) with
                    | Some _ => w
                    | None => <[base ++ [name] := Dir]> w
                    end) !! p = w !! p).
      { destruct (w !! (base ++ [name])); [done|].
        by rewrite lookup_insert_ne. }
      rewrite Hw. destruct (w !! p); [done|].
      repeat case_decide; try done.
      * exfalso. by eapply H0, list_elem_of_further.
      * exfalso. apply elem_of_cons in H0 as [?|?]; done.
Qed.

Lemma mkdir_lookup (d : path) (w : files) (p : path) :
  mkdir d w !! p =
  match w !! p with
  | Some n => Some n
  | None => if decide (p ∈ created [] d) then Some Dir else None
  end.
Proof. apply mkdir_from_lookup. Qed.



Lemma mkdir_only_prefixes (d : path) (w : files) (p : path) :
  ¬ p `prefix_of` d -> mkdir d w !! p = w !! p.
Proof.
  intros Hp. rewrite mkdir_lookup. destruct (w !! p); [done|].
  case_decide as Hin; [|done]. apply created_spec in Hin as [H _]. by destruct Hp.
Qed.



Lemma path_exists_true (p : path) (w : files) :
  path_exists p w = true <-> is_Some (w !! p).
Proof. unfold path_exists. by rewrite bool_decide_eq_true. Qed.

Lemma path_exists_false (p : path) (w : files) :
  path_exists p w = false <-> w !! p = None.
Proof.
  unfold path_exists. rewrite bool_decide_eq_false.
  by rewrite eq_None_not_Some.
Qed.

(** ** The state manager *)

Lemma json_is_str_true (j : json) (s : string) :
  json_is_str j s = true <-> j = JStr s.
Proof.
  destruct j; simpl; try (split; [done|congruence]).
  rewrite bool_decide_eq_true. split; congruence.
Qed.

Lemma validate_true (temp_dir : path) (expected : string) (w : files) :
  validate_state_transition temp_dir expected w = true <->
  get_current_state temp_dir w = JStr expected.
Proof. apply json_is_str_true. Qed.

Lemma validate_false (temp_dir : path) (expected : string) (w : files) :
  validate_state_transition temp_dir expected w = false <->
  get_current_state temp_dir w ≠ JStr expected.
Proof.
  rewrite <- validate_true.
  destruct (validate_state_transition temp_dir expected w); split; congruence.
Qed.

Lemma state_after_update (temp_dir : path) (now step : string)
  (details : option json) (w : files) :
  get_current_state temp_dir (update_state temp_dir now step details w)
  = JStr step.
Proof.
  unfold get_current_state, update_state, write.
  rewrite lookup_insert_eq. unfold dict_get. simpl.
  repeat case_bool_decide; congruence.
Qed.

Lemma state_depends_on_state_file (temp_dir : path) (w w' : files) :
  w' !! state_file temp_dir = w !! state_file temp_dir ->
  get_current_state temp_dir w' = get_current_state temp_dir w.
Proof. unfold get_current_state. by intros ->. Qed.

Lemma state_of_unreadable (temp_dir : path) (w : files) (n : node) :
  w !! state_file temp_dir = Some n -> unreadable_state n ->
  get_current_state temp_dir w = JStr "UNKNOWN".
Proof.
  intros Hw Hn. unfold get_current_state. rewrite Hw.
  destruct n as [|[t|j|ds]]; try done. destruct j; try done.
  simpl in Hn. unfold dict_get. clear Hw.
  generalize (JStr "UNKNOWN"). induction Hn as [|f fields Hf _ IH]; [done|].
  intros j. simpl. rewrite bool_decide_eq_false_2 by done. apply IH.
Qed.

(** ** C1: the gate of review, generate and commit *)



(** ** The extractor *)








Lemma fresh_start_state (output_root schema_name now : string) (w : files) :
  get_current_state (extractor_temp_dir output_root schema_name)
    (fresh_start output_root schema_name now w) = JStr "NOT_STARTED".
Proof. unfold fresh_start, reset_workflow. apply state_after_update. Qed.


(** A successful extraction, from any file system. *)
Lemma extract_safe_success (output_root schema_name database now timestamp : string)
  (templated_ddl grant_statements : list string) (w : files) :
  templated_ddl ≠ [] \/ grant_statements ≠ [] ->
  exists w',
    extract_safe output_root schema_name database now timestamp
      (Extracted templated_ddl grant_statements) w = Done true w' /\
    get_current_state (extractor_temp_dir output_root schema_name) w'
    = JStr "EXTRACTION_COMPLETE".
Proof.
  intros Hne. unfold extract_safe, try_extract, extract_schemas.
  cbn [object_count grant_count].
  assert (Hz : (length templated_ddl =? 0) && (length grant_statements =? 0)
               = false).
  { destruct templated_ddl, grant_statements; try done.
    by destruct Hne. }
  rewrite Hz. eexists. split; [reflexivity|]. apply state_after_update.
Qed.

(** ** C2: extraction restarts from any state *)


(** ** C3: an empty extraction is rolled back *)




(** ** C10: reading the persisted state *)

(** C10.  [get_current_state] always gives a value.  Without a state file it
    is [NOT_STARTED].  With a state file that cannot be read as a state (not
    JSON, not a dictionary, or without [current_step]) it is [UNKNOWN], which
    is none of the precondition states: review, generate and commit then
    answer [False] and change nothing, while [extract_safe] still runs and,
    when the warehouse yields an object or a grant, ends in
    [EXTRACTION_COMPLETE]. *)
Theorem C10_state_reading
  (output_root schema_name database now timestamp : string)
  (render : string -> string -> list (string * string) -> string)
  (inputs : list string) (dry_run : bool)
  (templated_ddl grant_statements : list string) (w : files) :
  let temp_dir := extractor_temp_dir output_root schema_name in
  (w !! state_file temp_dir = None ->
   get_current_state temp_dir w = JStr "NOT_STARTED") /\
  (forall n : node,
     w !! state_file temp_dir = Some n -> unreadable_state n ->
     get_current_state temp_dir w = JStr "UNKNOWN" /\
     validate_state_transition temp_dir "EXTRACTION_COMPLETE" w = false /\
     validate_state_transition temp_dir "REVIEW_COMPLETE" w = false /\
     validate_state_transition temp_dir "FINAL_GENERATED" w = false /\
     start_review temp_dir render now inputs w = Done false w /\
     generate_final_version temp_dir schema_name now w = Done false w /\
     commit_schema temp_dir now dry_run w = Done false w /\
     (templated_ddl ≠ [] \/ grant_statements ≠ [] ->
      exists w',
        extract_safe output_root schema_name database now timestamp
          (Extracted templated_ddl grant_statements) w = Done true w' /\
        get_current_state temp_dir w' = JStr "EXTRACTION_COMPLETE")).
Proof.
  intros temp_dir. split.
  - intros H. unfold get_current_state. by rewrite H.
  - intros n Hn Hun.
    pose proof (state_of_unreadable temp_dir w n Hn Hun) as Hs.
    assert (Hv : forall e, e ≠ "UNKNOWN" ->
                   validate_state_transition temp_dir e w = false).
    { intros e He. apply validate_false. rewrite Hs. congruence. }
    split; [done|]. do 3 (split; [by apply Hv|]).
    split; [unfold start_review; by rewrite Hv|].
    split; [unfold generate_final_version; by rewrite Hv|].
    split; [unfold commit_schema; by rewrite Hv|].
    apply extract_safe_success.
Qed.

Lemma C10_state_reading_witness :
  let temp_dir := extractor_temp_dir "schemas" "APP" in
  get_current_state temp_dir (∅ : files) = JStr "NOT_STARTED" /\
  get_current_state temp_dir example_corrupt = JStr "UNKNOWN" /\
  start_review temp_dir (fun _ _ _ => "") "t" ["y"] example_corrupt
  = Done false example_corrupt /\
  generate_final_version temp_dir "APP" "t" example_corrupt
  = Done false example_corrupt /\
  commit_schema temp_dir "t" false example_corrupt
  = Done false example_corrupt /\
  exists w',
    extract_safe "schemas" "APP" "PLATFORM_SIT" "t" "20260101"
      (Extracted ["create table A (x int);"] []) example_corrupt
    = Done true w' /\
    get_current_state temp_dir w' = JStr "EXTRACTION_COMPLETE".
Proof.
  intros temp_dir.
  destruct (C10_state_reading "schemas" "APP" "PLATFORM_SIT" "t" "20260101"
              (fun _ _ _ => "") ["y"] false ["create table A (x int);"] []
              (∅ : files)) as [H0 _].
  destruct (C10_state_reading "schemas" "APP" "PLATFORM_SIT" "t" "20260101"
              (fun _ _ _ => "") ["y"] false ["create table A (x int);"] []
              example_corrupt) as [_ H1].
  destruct (H1 (File (Text "{ not json"))) as (Hs & _ & _ & _ & Hr & Hg & Hc & He).
  { reflexivity. }
  { exact I. }
  split; [apply H0; reflexivity|].
  split; [exact Hs|]. split; [exact Hr|]. split; [exact Hg|].
  split; [exact Hc|]. apply He. left. discriminate.
Defined.

(** ** C5: the classifier is unsafe by default *)

Lemma is_safe_iff (match_text context full_content : text) (start stop : nat) :
  (Analyzer._is_safe_to_template match_text context full_content start stop).1
  = existsb (fun pattern => Analyzer.re_search pattern context)
      (Analyzer.from_join_patterns match_text).
Proof.
  unfold Analyzer._is_safe_to_template.
  destruct (existsb _ (Analyzer.from_join_patterns match_text)); [done|].
  destruct (existsb _ _); [done|]. by destruct (Analyzer._is_in_string_literal _ _ _).
Qed.

(** C5.  When the context of a candidate matches none of the four safe
    patterns (the reference right after [FROM], [JOIN], [UPDATE] or
    [DELETE FROM]), [_is_safe_to_template] answers unsafe, and the reason is
    one of the three unsafe ones: a table or view name (after [CREATE TABLE],
    [CREATE VIEW], [ALTER TABLE] or [DROP TABLE]), a string literal, or the
    fallback of an unclear context.  No path of the classifier answers safe
    without one of the safe patterns. *)
Theorem C5_unsafe_by_default
  (match_text context full_content : text) (start stop : nat) :
  (forall pattern, pattern ∈ Analyzer.from_join_patterns match_text ->
                   Analyzer.re_search pattern context = false) ->
  let answer :=
    Analyzer._is_safe_to_template match_text context full_content start stop in
  answer.1 = false /\
  (answer.2 = Analyzer.reason_table_name \/
   answer.2 = Analyzer.reason_string_literal \/
   answer.2 = Analyzer.reason_unclear) /\
  (existsb (fun pattern => Analyzer.re_search pattern context)
     (Analyzer.table_column_patterns match_text) = true ->
   answer.2 = Analyzer.reason_table_name).
Proof.
  intros Hnone answer. unfold answer, Analyzer._is_safe_to_template.
  assert (Hex : existsb (fun pattern => Analyzer.re_search pattern context)
                  (Analyzer.from_join_patterns match_text) = false).
  { apply not_true_is_false. intros (p & Hp & Hm)%existsb_exists.
    apply list_elem_of_In in Hp. rewrite (Hnone p Hp) in Hm. done. }
  rewrite Hex.
  destruct (existsb _ (Analyzer.table_column_patterns match_text)); simpl.
  - auto.
  - destruct (Analyzer._is_in_string_literal _ _ _); simpl;
      (split; [done|split; [auto|done]]).
Qed.

Lemma C5_unsafe_by_default_witness :
  let content := of_string "CREATE TABLE PLATFORM_SIT.FOO (A INT)" in
  let answer :=
    Analyzer._is_safe_to_template (of_string "PLATFORM_SIT") content content
      13 25 in
  answer.1 = false /\ answer.2 = Analyzer.reason_table_name.
Proof.
  intros content answer.
  destruct (C5_unsafe_by_default (of_string "PLATFORM_SIT") content content
              13 25) as (H1 & _ & H3).
  - intros pattern Hp. vm_compute in Hp.
    repeat (apply elem_of_cons in Hp as [->|Hp]; [by vm_compute|]).
    by apply elem_of_nil in Hp.
  - split; [exact H1|]. apply H3. by vm_compute.
Defined.

(** ** The reviewer *)

Lemma sibling_not_prefix (d : path) (a b : string) (r1 r2 : list string) :
  a ≠ b -> ¬ (d ++ a :: r1) `prefix_of` (d ++ b :: r2).
Proof.
  intros Hab [k Hk]. rewrite <- app_assoc in Hk.
  apply app_inv_head in Hk. simpl in Hk. congruence.
Qed.

Lemma sibling_neq (d : path) (a b : string) (r1 r2 : list string) :
  a ≠ b -> d ++ a :: r1 ≠ d ++ b :: r2.
Proof. intros Hab Heq. apply app_inv_head in Heq. congruence. Qed.

Ltac path_diff :=
  unfold state_file, decisions_file, analysis_file, analysis_dir,
    suggested_dir, raw_dir, final_dir;
  rewrite <- ?app_assoc; simpl;
  first [by apply sibling_neq | by apply sibling_not_prefix].

(** The analysis writes the report and makes two directories; every other
    path is as before. *)
Lemma analyze_keeps (temp_dir : path)
  (render : string -> string -> list (string * string) -> string)
  (now : string) (w w1 : files) (p : path) :
  analyze_schema_files temp_dir render now w = Some w1 ->
  p ≠ analysis_file temp_dir ->
  ¬ p `prefix_of` analysis_dir temp_dir ->
  ¬ p `prefix_of` suggested_dir temp_dir ->
  w1 !! p = w !! p.
Proof.
  unfold analyze_schema_files. intros H Hf Ha Hs.
  destruct (negb _); [done|]. destruct (read_all _ _ _); [|done].
  injection H as <-. rewrite mkdir_only_prefixes by done. unfold write.
  rewrite lookup_insert_ne by done. by rewrite mkdir_only_prefixes.
Qed.

Lemma prepare_review_keeps (temp_dir : path)
  (render : string -> string -> list (string * string) -> string)
  (now : string) (w w1 : files) (p : path) :
  (exists suggestions,
     prepare_review temp_dir render now w = Ready w1 suggestions)
  \/ prepare_review temp_dir render now w = GiveUp w1 ->
  p ≠ analysis_file temp_dir ->
  ¬ p `prefix_of` analysis_dir temp_dir ->
  ¬ p `prefix_of` suggested_dir temp_dir ->
  w1 !! p = w !! p.
Proof.
  unfold prepare_review. intros H Hf Ha Hs.
  destruct (negb (path_exists (analysis_file temp_dir) w)).
  - destruct (analyze_schema_files temp_dir render now w) as [w2|] eqn:Hw2.
    + assert (w1 = w2) as ->; [|by eapply analyze_keeps].
      destruct (_ || _); [destruct H as [[? H]|H]; congruence|].
      destruct (negb _); [destruct H as [[? H]|H]; congruence|].
      destruct (_load_suggestions _ _);
        destruct H as [[? H]|H]; congruence.
    + destruct H as [[? H]|H]; congruence.
  - assert (w1 = w) as ->; [|done].
    destruct (_ || _); [destruct H as [[? H]|H]; congruence|].
    destruct (negb _); [destruct H as [[? H]|H]; congruence|].
    destruct (_load_suggestions _ _);
      destruct H as [[? H]|H]; congruence.
Qed.

Lemma prepare_review_keeps_state (temp_dir : path)
  (render : string -> string -> list (string * string) -> string)
  (now : string) (w w1 : files) :
  (exists suggestions,
     prepare_review temp_dir render now w = Ready w1 suggestions)
  \/ prepare_review temp_dir render now w = GiveUp w1 ->
  w1 !! state_file temp_dir = w !! state_file temp_dir /\
  w1 !! decisions_file temp_dir = w !! decisions_file temp_dir.
Proof.
  intros H. split; eapply prepare_review_keeps; try exact H; path_diff.
Qed.

Lemma start_review_cancelled (temp_dir : path)
  (render : string -> string -> list (string * string) -> string)
  (now : string) (inputs : list string) (w w1 : files)
  (suggestions : list suggestion) (decisions : list decision) :
  get_current_state temp_dir w = JStr "EXTRACTION_COMPLETE" ->
  prepare_review temp_dir render now w = Ready w1 suggestions ->
  review_all now 1 suggestions inputs [] = Cancelled decisions ->
  start_review temp_dir render now inputs w = Done false w1.
Proof.
  intros Hs%validate_true Hp Hr. unfold start_review. rewrite Hs, Hp. simpl.
  destruct suggestions; [done|]. by rewrite Hr.
Qed.

(** The decisions of a cancelled session: the last one is the quit record
    and the ones before are the accept and reject decisions made so far. *)
Lemma review_all_cancelled (now : string) (suggestions : list suggestion) :
  forall (i : nat) (inputs : list string) (before decisions : list decision),
  review_all now i suggestions inputs before = Cancelled decisions ->
  exists made quit,
    decisions = before ++ made ++ [quit] /\
    d_decision quit = "quit" /\
    Forall (fun d => d_decision d ≠ "quit") made.
Proof.
  induction suggestions as [|s rest IH]; intros i inputs before decisions H;
    simpl in H; [done|].
  destruct (_review_single_suggestion now i s inputs) as [[d inputs']|];
    [|done].
  case_bool_decide as Hq.
  - injection H as <-. exists [], d. by rewrite app_nil_l.
  - apply IH in H as (made & quit & -> & Hquit & Hmade).
    exists (d :: made), quit. rewrite <- app_assoc. by repeat constructor.
Qed.

(** ** C8: quitting a review *)

(** C8 as the specification states it fails on the sources: the operator
    accepts the first suggestion and quits at the second; the review answers
    [False] and the state stays [EXTRACTION_COMPLETE], but the accepted
    decision, which the session had made, is in no file: no decisions file
    exists afterwards. *)
Lemma C8_quit_discards_decisions :
  start_review example_temp_dir no_report "t1" ["y"; "q"] example_extracted
  = Done false example_extracted /\
  review_all "t1" 1
    (default [] (_load_suggestions example_temp_dir example_extracted))
    ["y"; "q"] []
  = Cancelled [example_accept; example_quit] /\
  get_current_state example_temp_dir example_extracted
  = JStr "EXTRACTION_COMPLETE" /\
  example_extracted !! decisions_file example_temp_dir = None /\
  ¬ (forall d, d ∈ [example_accept] ->
       exists ds, get_decisions example_temp_dir example_extracted = Some ds
                  /\ d ∈ ds).
Proof.
  split; [vm_refl|]. split; [vm_refl|].
  split; [vm_refl|]. split; [vm_refl|].
  intros H. destruct (H example_accept) as (ds & Hds & Hin).
  - apply list_elem_of_here.
  - vm_compute in Hds. injection Hds as <-. by apply elem_of_nil in Hin.
Qed.

(** C8, amended.  When the operator answers quit during the review, the
    review answers [False], the persisted state stays [EXTRACTION_COMPLETE],
    and nothing of the session is written: the decisions file is as it was
    before the review, so the accept and reject decisions made before the
    quit (all the entries of the list of the session but the last, which is
    the quit record) are lost together with the suggestion in progress. *)
Theorem C8_quit_cancels_review (temp_dir : path)
  (render : string -> string -> list (string * string) -> string)
  (now : string) (inputs : list string) (w w1 : files)
  (suggestions : list suggestion) (decisions : list decision) :
  get_current_state temp_dir w = JStr "EXTRACTION_COMPLETE" ->
  prepare_review temp_dir render now w = Ready w1 suggestions ->
  review_all now 1 suggestions inputs [] = Cancelled decisions ->
  start_review temp_dir render now inputs w = Done false w1 /\
  get_current_state temp_dir w1 = JStr "EXTRACTION_COMPLETE" /\
  w1 !! decisions_file temp_dir = w !! decisions_file temp_dir /\
  get_decisions temp_dir w1 = get_decisions temp_dir w /\
  exists made quit,
    decisions = made ++ [quit] /\ d_decision quit = "quit" /\
    Forall (fun d => d_decision d ≠ "quit") made.
Proof.
  intros Hs Hp Hr.
  destruct (prepare_review_keeps_state temp_dir render now w w1) as [H1 H2];
    [left; by eexists|].
  split; [by eapply start_review_cancelled|].
  split; [by rewrite (state_depends_on_state_file temp_dir w w1 H1)|].
  split; [done|]. split; [unfold get_decisions; by rewrite H2|].
  by apply review_all_cancelled in Hr.
Qed.

Lemma C8_quit_cancels_review_witness :
  start_review example_temp_dir no_report "t1" ["y"; "q"] example_extracted
  = Done false example_extracted /\
  get_current_state example_temp_dir example_extracted
  = JStr "EXTRACTION_COMPLETE" /\
  get_decisions example_temp_dir example_extracted = Some [].
Proof.
  destruct (C8_quit_cancels_review example_temp_dir no_report "t1" ["y"; "q"]
              example_extracted example_extracted
              (default [] (_load_suggestions example_temp_dir example_extracted))
              [example_accept; example_quit])
    as (H1 & H2 & _ & H4 & _).
  - vm_refl.
  - vm_refl.
  - vm_refl.
  - split; [exact H1|]. split; [exact H2|]. vm_refl.
Defined.

(** ** The generator *)














(** ** C9: the generator applies the accepted decisions to every file *)



(** ** Texts *)

Lemma of_to_string (t : text) : of_string (to_string t) = t.
Proof. apply list_ascii_of_string_of_list_ascii. Qed.

Lemma to_of_string (s : string) : to_string (of_string s) = s.
Proof. apply string_of_list_ascii_of_string. Qed.

Lemma to_string_nil (t : text) : to_string t = "" <-> t = [].
Proof. destruct t; simpl; split; congruence. Qed.

Lemma truthy_spec (s : string) : truthy s = true <-> s ≠ "".
Proof. destruct s; simpl; split; congruence. Qed.

Lemma is_space_upper (c : ascii) : is_space (upper_char c) = is_space c.
Proof. by destruct c as [[] [] [] [] [] [] [] []]. Qed.

Lemma upper_char_idem (c : ascii) : upper_char (upper_char c) = upper_char c.
Proof. by destruct c as [[] [] [] [] [] [] [] []]. Qed.

Lemma lstrip_headed (s : text) : headed (lstrip s).
Proof.
  induction s as [|c t IH]; simpl; [done|].
  destruct (is_space c) eqn:Hc; [done|]. simpl. done.
Qed.

Lemma lstrip_id (s : text) : headed s -> lstrip s = s.
Proof. destruct s as [|c t]; simpl; [done|]. by intros ->. Qed.

Lemma rstrip_cons (c : ascii) (t : text) :
  rstrip (c :: t)
  = match rstrip t with
    | [] => if is_space c then [] else [c]
    | _ => c :: rstrip t
    end.
Proof. simpl. by destruct (rstrip t). Qed.

Lemma rstrip_idem (s : text) : rstrip (rstrip s) = rstrip s.
Proof.
  induction s as [|c t IH]; [done|]. rewrite rstrip_cons.
  destruct (rstrip t) as [|d r] eqn:Hr.
  - destruct (is_space c) eqn:Hc; [done|]. simpl. by rewrite Hc.
  - rewrite rstrip_cons, IH. done.
Qed.

Lemma rstrip_headed (s : text) : headed s -> headed (rstrip s).
Proof.
  destruct s as [|c t]; [done|]. simpl. intros Hc.
  destruct (rstrip t); [by rewrite Hc|done].
Qed.

Lemma strip_idem (s : text) : strip (strip s) = strip s.
Proof.
  unfold strip. rewrite (lstrip_id (rstrip (lstrip s))).
  - apply rstrip_idem.
  - apply rstrip_headed, lstrip_headed.
Qed.

Lemma lstrip_upper (s : text) : lstrip (upper s) = upper (lstrip s).
Proof.
  induction s as [|c t IH]; [done|]. simpl. rewrite is_space_upper.
  by destruct (is_space c).
Qed.

Lemma rstrip_upper (s : text) : rstrip (upper s) = upper (rstrip s).
Proof.
  induction s as [|c t IH]; [done|]. unfold upper in *.
  cbn [map]. rewrite !rstrip_cons, IH, is_space_upper.
  destruct (rstrip t); simpl; [by destruct (is_space c)|done].
Qed.

Lemma strip_upper (s : text) : strip (upper s) = upper (strip s).
Proof. unfold strip. by rewrite lstrip_upper, rstrip_upper. Qed.

Lemma normalize_ddl_text_pipeline (s : text) :
  normalize_ddl_text s = ddl_pipeline (strip (upper s)).
Proof. by destruct s. Qed.

(** The comparison strips the DDL before it normalizes it; the normal form is
    the same. *)
Lemma normalize_ddl_strip (ddl : string) :
  normalize_ddl (strip_string ddl) = normalize_ddl ddl.
Proof.
  unfold normalize_ddl, strip_string. rewrite of_to_string.
  by rewrite !normalize_ddl_text_pipeline, <- strip_upper, strip_idem.
Qed.

(** ** The comparison of objects *)

Lemma select_record (kind c : change) (acc : object_changes) (k : string) :
  select kind (record_change acc c k)
  = select kind acc ++ (if decide (c = kind) then [k] else []).
Proof.
  destruct kind, c; simpl; try by rewrite app_nil_r.
  all: done.
Qed.

Lemma select_fold (current_objects proposed_objects : gmap string string)
  (kind : change) (keys : list string) :
  forall acc : object_changes,
  select kind
    (foldl (fun changes obj_key =>
              record_change changes
                (classify current_objects proposed_objects obj_key) obj_key)
       acc keys)
  = select kind acc
    ++ filter (fun k => classify current_objects proposed_objects k = kind)
         keys.
Proof.
  induction keys as [|k keys IH]; intros acc; cbn [foldl].
  - by rewrite filter_nil, app_nil_r.
  - rewrite IH, select_record, filter_cons, <- app_assoc.
    by destruct (decide _).
Qed.

Lemma select_compare (current_objects proposed_objects : gmap string string)
  (kind : change) :
  select kind (compare_objects current_objects proposed_objects)
  = filter (fun k => classify current_objects proposed_objects k = kind)
      (sorted (all_objects current_objects proposed_objects)).
Proof.
  unfold compare_objects. rewrite select_fold. by destruct kind.
Qed.

Lemma elem_of_sorted (keys : gset string) (k : string) :
  k ∈ sorted keys <-> k ∈ keys.
Proof.
  unfold sorted. rewrite merge_sort_Permutation. apply elem_of_elements.
Qed.

Lemma NoDup_sorted (keys : gset string) : NoDup (sorted keys).
Proof.
  unfold sorted. rewrite merge_sort_Permutation. apply NoDup_elements.
Qed.

Lemma elem_of_select (current_objects proposed_objects : gmap string string)
  (kind : change) (k : string) :
  k ∈ select kind (compare_objects current_objects proposed_objects) <->
  k ∈ all_objects current_objects proposed_objects /\
  classify current_objects proposed_objects k = kind.
Proof.
  rewrite select_compare, list_elem_of_filter, elem_of_sorted. tauto.
Qed.

Lemma classify_spec (current_objects proposed_objects : gmap string string)
  (k : string) :
  let nc := normal_form current_objects k in
  let np := normal_form proposed_objects k in
  (classify current_objects proposed_objects k = New <-> nc = "" /\ np ≠ "") /\
  (classify current_objects proposed_objects k = Removed <->
   nc ≠ "" /\ np = "") /\
  (classify current_objects proposed_objects k = Modified <->
   nc ≠ "" /\ np ≠ "" /\ nc ≠ np) /\
  (classify current_objects proposed_objects k = Unchanged <-> nc = np).
Proof.
  intros nc np. unfold classify. fold (normal_form current_objects k).
  fold (normal_form proposed_objects k). fold nc. fold np.
  destruct (truthy nc) eqn:Hc; destruct (truthy np) eqn:Hp; simpl.
  all: try apply truthy_spec in Hc; try apply truthy_spec in Hp.
  all: try (apply not_true_iff_false in Hc; rewrite truthy_spec in Hc;
            apply dec_stable in Hc).
  all: try (apply not_true_iff_false in Hp; rewrite truthy_spec in Hp;
            apply dec_stable in Hp).
  all: try case_bool_decide; simpl.
  all: repeat split; try congruence; try tauto; intros; try congruence;
       try (destruct_and?; congruence).
Qed.

Lemma normal_form_absent (objects : gmap string string) (k : string) :
  objects !! k = None -> normal_form objects k = "".
Proof.
  intros H. unfold normal_form, get_default. rewrite H. by vm_compute.
Qed.

Lemma normal_form_present (objects : gmap string string) (k ddl : string) :
  objects !! k = Some ddl -> normal_form objects k = normalize_ddl ddl.
Proof.
  intros H. unfold normal_form, get_default. rewrite H. simpl.
  apply normalize_ddl_strip.
Qed.

Lemma normal_form_empty_iff (objects : gmap string string) (k : string) :
  substantial objects -> (normal_form objects k = "" <-> k ∉ dom objects).
Proof.
  intros Hs. rewrite not_elem_of_dom. split.
  - intros Hn. destruct (objects !! k) as [ddl|] eqn:Hk; [|done].
    rewrite (normal_form_present _ _ _ Hk) in Hn. by apply Hs in Hk.
  - apply normal_form_absent.
Qed.

(** ** C6: the classes of the comparison *)

(** C6 as the specification states it fails on the sources: a key that both
    mappings hold, with normalized DDL that differs, is classified as new and
    not as modified when the DDL of the live side normalizes to the empty
    text, as the error comment that [extract_current_state] stores does. *)
Lemma C6_present_key_classified_new :
  "TABLE:FOO" ∈ dom example_current_error /\
  "TABLE:FOO" ∈ dom example_proposed_foo /\
  normalize_ddl "-- ERROR: SQL compilation error"
  ≠ normalize_ddl "CREATE TABLE FOO (A INT)" /\
  new (compare_objects example_current_error example_proposed_foo)
  = ["TABLE:FOO"] /\
  modified (compare_objects example_current_error example_proposed_foo) = [].
Proof.
  split; [apply elem_of_dom; eexists; apply lookup_singleton_eq|].
  split; [apply elem_of_dom; eexists; apply lookup_singleton_eq|].
  split; [by vm_compute|]. split; vm_refl.
Qed.

Lemma compare_grants_partition (current_grants proposed_grants : list string)
  (x : string) :
  let g := compare_grants current_grants proposed_grants in
  x ∈ normalized_set current_grants ∪ normalized_set proposed_grants ->
  (x ∈ new_grants g /\ (x ∉ removed_grants g) /\ (x ∉ unchanged_grants g)) \/
  ((x ∉ new_grants g) /\ x ∈ removed_grants g /\ (x ∉ unchanged_grants g)) \/
  ((x ∉ new_grants g) /\ (x ∉ removed_grants g) /\ x ∈ unchanged_grants g).
Proof.
  simpl. rewrite elem_of_union, !elem_of_difference, elem_of_intersection.
  destruct (decide (x ∈ normalized_set current_grants));
    destruct (decide (x ∈ normalized_set proposed_grants)); tauto.
Qed.

(** C6, amended.  [compare_objects] puts every key of the union of the two
    key sets in exactly one of its four lists, and no other key in any.  The
    class is read off the normalized DDL, where a key without entry counts as
    the empty text: new when the current normal form is empty and the
    proposed one is not, removed when the proposed one is empty and the
    current one is not, modified when neither is empty and they differ,
    unchanged when they are equal.  When every stored DDL has a normal form
    that is not empty, this is the classification by presence: new is absent
    in current and present in proposed, removed is present in current and
    absent in proposed, modified and unchanged are present in both with
    normal forms that differ or are equal.  [compare_grants] classifies by
    set difference over the normalized grants into new, removed and
    unchanged, which are its only three classes, and every normalized grant
    of either side is in exactly one of them. *)
Theorem C6_comparison_classes
  (current_objects proposed_objects : gmap string string)
  (current_grants proposed_grants : list string) :
  let c := compare_objects current_objects proposed_objects in
  let g := compare_grants current_grants proposed_grants in
  let keys := all_objects current_objects proposed_objects in
  (forall k kind, k ∈ select kind c <->
     k ∈ keys /\ classify current_objects proposed_objects k = kind) /\
  (forall kind, NoDup (select kind c)) /\
  (forall k, k ∈ keys ->
     let nc := normal_form current_objects k in
     let np := normal_form proposed_objects k in
     (k ∈ new c <-> nc = "" /\ np ≠ "") /\
     (k ∈ removed c <-> nc ≠ "" /\ np = "") /\
     (k ∈ modified c <-> nc ≠ "" /\ np ≠ "" /\ nc ≠ np) /\
     (k ∈ unchanged c <-> nc = np)) /\
  (substantial current_objects -> substantial proposed_objects ->
   forall k,
     (k ∈ new c <-> (k ∉ dom current_objects) /\ k ∈ dom proposed_objects) /\
     (k ∈ removed c <-> k ∈ dom current_objects /\ (k ∉ dom proposed_objects)) /\
     (k ∈ modified c <->
      exists ddl ddl', current_objects !! k = Some ddl /\
                       proposed_objects !! k = Some ddl' /\
                       normalize_ddl ddl ≠ normalize_ddl ddl') /\
     (k ∈ unchanged c <->
      exists ddl ddl', current_objects !! k = Some ddl /\
                       proposed_objects !! k = Some ddl' /\
                       normalize_ddl ddl = normalize_ddl ddl')) /\
  new_grants g
  = normalized_set proposed_grants ∖ normalized_set current_grants /\
  removed_grants g
  = normalized_set current_grants ∖ normalized_set proposed_grants /\
  unchanged_grants g
  = normalized_set current_grants ∩ normalized_set proposed_grants /\
  (forall x,
     x ∈ normalized_set current_grants ∪ normalized_set proposed_grants ->
     (x ∈ new_grants g /\ (x ∉ removed_grants g) /\ (x ∉ unchanged_grants g)) \/
     ((x ∉ new_grants g) /\ x ∈ removed_grants g /\ (x ∉ unchanged_grants g)) \/
     ((x ∉ new_grants g) /\ (x ∉ removed_grants g) /\ x ∈ unchanged_grants g)).
Proof.
  intros c g keys.
  assert (Hsel : forall k kind, k ∈ select kind c <->
            k ∈ keys /\ classify current_objects proposed_objects k = kind).
  { intros k kind. apply elem_of_select. }
  split; [exact Hsel|]. split.
  { intros kind. unfold c. rewrite select_compare.
    apply NoDup_filter, NoDup_sorted. }
  split.
  { intros k Hk. cbv zeta.
    destruct (classify_spec current_objects proposed_objects k)
      as (H1 & H2 & H3 & H4).
    cbv zeta in H1, H2, H3, H4.
    pose proof (Hsel k New) as S1. pose proof (Hsel k Removed) as S2.
    pose proof (Hsel k Modified) as S3. pose proof (Hsel k Unchanged) as S4.
    simpl in S1, S2, S3, S4.
    rewrite S1, S2, S3, S4, H1, H2, H3, H4. clear -Hk. tauto. }
  split.
  { intros Hc Hp k.
    destruct (classify_spec current_objects proposed_objects k)
      as (H1 & H2 & H3 & H4).
    cbv zeta in H1, H2, H3, H4.
    pose proof (normal_form_empty_iff current_objects k Hc) as Ec.
    pose proof (normal_form_empty_iff proposed_objects k Hp) as Ep.
    pose proof (Hsel k New) as S1. pose proof (Hsel k Removed) as S2.
    pose proof (Hsel k Modified) as S3. pose proof (Hsel k Unchanged) as S4.
    simpl in S1, S2, S3, S4. unfold keys, all_objects in S1, S2, S3, S4.
    rewrite elem_of_union in S1, S2, S3, S4.
    assert (Dc : k ∈ dom current_objects \/ k ∉ dom current_objects)
      by (destruct (decide (k ∈ dom current_objects)); [by left|by right]).
    assert (Dp : k ∈ dom proposed_objects \/ k ∉ dom proposed_objects)
      by (destruct (decide (k ∈ dom proposed_objects)); [by left|by right]).
    assert (Ec' : normal_form current_objects k ≠ "" <->
                  k ∈ dom current_objects).
    { rewrite Ec. clear -Dc. tauto. }
    assert (Ep' : normal_form proposed_objects k ≠ "" <->
                  k ∈ dom proposed_objects).
    { rewrite Ep. clear -Dp. tauto. }
    assert (Hboth : forall P : string -> string -> Prop,
              (exists ddl ddl', current_objects !! k = Some ddl /\
                 proposed_objects !! k = Some ddl' /\
                 P (normalize_ddl ddl) (normalize_ddl ddl')) <->
              k ∈ dom current_objects /\ k ∈ dom proposed_objects /\
              P (normal_form current_objects k)
                (normal_form proposed_objects k)).
    { intros P. split.
      - intros (ddl & ddl' & Hd & Hd' & HP).
        rewrite (normal_form_present _ _ _ Hd), (normal_form_present _ _ _ Hd').
        split; [by apply elem_of_dom|]. split; [by apply elem_of_dom|done].
      - intros ([ddl Hd]%elem_of_dom & [ddl' Hd']%elem_of_dom & HP).
        rewrite (normal_form_present _ _ _ Hd), (normal_form_present _ _ _ Hd')
          in HP.
        by exists ddl, ddl'. }
    split; [rewrite S1, H1, Ec, Ep'; clear; tauto|].
    split; [rewrite S2, H2, Ec', Ep; clear; tauto|].
    split.
    - rewrite (Hboth (fun a b => a ≠ b)), S3, H3, Ec', Ep'. clear. tauto.
    - rewrite (Hboth (fun a b => a = b)), S4, H4. split.
      + intros [Hk Heq]. destruct Dc as [Dc|Dc], Dp as [Dp|Dp].
        * done.
        * exfalso. apply Ep in Dp. rewrite Dp in Heq. by apply Ec in Heq.
        * exfalso. apply Ec in Dc. rewrite Dc in Heq. symmetry in Heq.
          by apply Ep in Heq.
        * by destruct Hk.
      + intros (Kc & Kp & Heq). split; [by left|done]. }
  split; [done|]. split; [done|]. split; [done|].
  intros x. apply compare_grants_partition.
Qed.

Lemma example_current_substantial : substantial example_current.
Proof.
  intros k ddl H. apply elem_of_map_to_list in H. vm_compute in H.
  repeat (apply elem_of_cons in H as [H|H];
          [injection H as -> ->; by vm_compute|]).
  by apply elem_of_nil in H.
Qed.

Lemma example_proposed_substantial : substantial example_proposed.
Proof.
  intros k ddl H. apply elem_of_map_to_list in H. vm_compute in H.
  repeat (apply elem_of_cons in H as [H|H];
          [injection H as -> ->; by vm_compute|]).
  by apply elem_of_nil in H.
Qed.

Lemma C6_comparison_witness :
  let c := compare_objects example_current example_proposed in
  "TABLE:B" ∈ new c /\ "VIEW:Z" ∈ removed c /\ "TABLE:A" ∈ unchanged c.
Proof.
  intros c.
  destruct (C6_comparison_classes example_current example_proposed [] [])
    as (_ & _ & _ & H & _).
  specialize (H example_current_substantial example_proposed_substantial).
  split; [|split].
  - apply (H "TABLE:B"). split.
    + apply not_elem_of_dom. vm_refl.
    + apply elem_of_dom. exists "create table b (y int)". vm_refl.
  - apply (H "VIEW:Z"). split.
    + apply elem_of_dom. exists "create view z as select 1". vm_refl.
    + apply not_elem_of_dom. vm_refl.
  - apply (H "TABLE:A").
    exists "create table a (x int);", "CREATE TABLE   A(X INT)".
    split; [vm_refl|]. split; vm_refl.
Defined.

(** ** C7: the verdict of the comparison *)

Lemma summary_verdict_spec (target_env : string) (o : object_changes)
  (g : grant_changes) :
  summary_verdict target_env o g
  = if meaningful_changes target_env o g =? 0 then 0%Z else 2%Z.
Proof.
  unfold summary_verdict.
  destruct (meaningful_changes target_env o g) as [|m]; simpl.
  - by destruct (_ =? 0).
  - done.
Qed.







(** ** Normal forms: shapes kept by the steps of the normalizations *)

Lemma adjacent_app_inv (r : ascii -> ascii -> bool) (s1 s2 : text) :
  adjacent r (s1 ++ s2) -> adjacent r s1 /\ adjacent r s2.
Proof.
  induction s1 as [|a s1 IH]; simpl; [done|].
  intros [Hl Ha]. destruct (IH Ha) as [H1 H2]. split; [|done].
  split; [|done]. by destruct s1.
Qed.

Lemma adjacent_infix (r : ascii -> ascii -> bool) (a s b : text) :
  adjacent r (a ++ s ++ b) -> adjacent r s.
Proof.
  intros H. apply adjacent_app_inv in H as [_ H].
  by apply adjacent_app_inv in H as [H _].
Qed.

Lemma adjacent_mono (r r' : ascii -> ascii -> bool) (s : text) :
  (forall a b, r a b = true -> r' a b = true) ->
  adjacent r s -> adjacent r' s.
Proof.
  intros Hr. induction s as [|a s IH]; simpl; [done|].
  intros [Hl Ha]. split; [|by apply IH].
  destruct s; simpl in *; [done|by apply Hr].
Qed.

Lemma Forall_infix {A : Type} (P : A -> Prop) (a s b : list A) :
  Forall P (a ++ s ++ b) -> Forall P s.
Proof.
  intros H. apply Forall_app in H as [_ H]. by apply Forall_app in H as [H _].
Qed.

(** *** [strip] *)

Lemma lstrip_suffix (s : text) : exists a, s = a ++ lstrip s.
Proof.
  induction s as [|c t [a IH]]; simpl; [by exists []|].
  destruct (is_space c); [|by exists []].
  exists (c :: a). simpl. by rewrite <- IH.
Qed.

Lemma rstrip_prefix (s : text) : exists b, s = rstrip s ++ b.
Proof.
  induction s as [|c t [b IH]]; [by exists []|]. rewrite rstrip_cons.
  destruct (rstrip t) as [|d r] eqn:Hr.
  - destruct (is_space c); [by exists (c :: t)|].
    exists t. done.
  - exists b. simpl in *. by f_equal.
Qed.

Lemma strip_infix (s : text) : exists a b, s = a ++ strip s ++ b.
Proof.
  destruct (lstrip_suffix s) as [a Ha].
  destruct (rstrip_prefix (lstrip s)) as [b Hb].
  exists a, b. unfold strip. by rewrite <- Hb.
Qed.

Lemma rstrip_not_ending (s : text) : rstrip s = s -> not_ending is_space s.
Proof.
  unfold not_ending. induction s as [|c t IH]; [done|]. rewrite rstrip_cons.
  destruct (rstrip t) as [|d r] eqn:Hr.
  - destruct (is_space c) eqn:Hc; [done|]. intros H. by simplify_eq.
  - intros H. injection H as H. rewrite <- H in *.
    specialize (IH eq_refl). by rewrite last_cons_cons.
Qed.

Lemma strip_fixed (s : text) : strip (strip s) = strip s /\
  rstrip (strip s) = strip s /\ headed (strip s).
Proof.
  split; [apply strip_idem|]. unfold strip.
  split; [apply rstrip_idem|apply rstrip_headed, lstrip_headed].
Qed.

Lemma upper_fixed_id (s : text) : Forall upper_fixed s -> upper s = s.
Proof.
  induction 1 as [|c t Hc _ IH]; [done|]. unfold upper in *. simpl.
  by rewrite Hc, IH.
Qed.

Lemma upper_is_fixed (s : text) : Forall upper_fixed (upper s).
Proof.
  induction s as [|c t IH]; constructor; [apply upper_char_idem|done].
Qed.

(** *** [remove_comments] *)

Lemma remove_comments_Forall (P : ascii -> Prop) (s : text) (b : bool) :
  Forall P s -> Forall P (remove_comments_from b s).
Proof.
  intros H. revert b. induction H as [|c t Hc _ IH]; intros b; simpl; [done|].
  destruct b.
  - destruct (is_newline c); [constructor|]; auto.
  - destruct (_ && _); [|constructor]; auto.
Qed.

Lemma is_dash_newline (c : ascii) : is_newline c = true -> is_dash c = false.
Proof. by destruct c as [[] [] [] [] [] [] [] []]. Qed.

(** In a comment the next character that is kept, if any, is a line feed;
    outside it is a line feed or the first character of the text. *)
Lemma remove_comments_head (s : text) (b : bool) :
  match remove_comments_from b s with
  | h :: _ => is_newline h = true \/ (b = false /\ exists t, s = h :: t)
  | [] => True
  end.
Proof.
  revert b. induction s as [|c t IH]; intros b; simpl; [done|].
  destruct b.
  - destruct (is_newline c) eqn:Hc; [by left|].
    specialize (IH true). destruct (remove_comments_from true t); [done|].
    destruct IH as [?|[? _]]; [by left|done].
  - destruct (_ && _).
    + specialize (IH true). destruct (remove_comments_from true t); [done|].
      destruct IH as [?|[? _]]; [by left|done].
    + right. split; [done|by eexists].
Qed.

Lemma remove_comments_no_dashes (s : text) (b : bool) :
  adjacent no_dashes (remove_comments_from b s).
Proof.
  revert b. induction s as [|c t IH]; intros b; simpl; [done|].
  destruct b.
  - destruct (is_newline c) eqn:Hc; [|apply IH]. split; [|apply IH].
    destruct (remove_comments_from false t) eqn:E; simpl; [done|].
    unfold no_dashes. by rewrite (is_dash_newline c Hc).
  - destruct (is_dash c && head_is is_dash t) eqn:Hd; [apply IH|].
    split; [|apply IH].
    pose proof (remove_comments_head t false) as Hh.
    destruct (remove_comments_from false t) as [|h r] eqn:E; simpl; [done|].
    unfold no_dashes. destruct Hh as [Hn|[_ [t' ->]]].
    + rewrite (is_dash_newline h Hn). by rewrite andb_false_r.
    + simpl in Hd. by rewrite Hd.
Qed.

Lemma remove_comments_id (s : text) :
  adjacent no_dashes s -> remove_comments s = s.
Proof.
  unfold remove_comments. induction s as [|c t IH]; simpl; [done|].
  intros [Hl Ha]. rewrite IH by done.
  destruct t as [|d t]; simpl in *.
  - by rewrite andb_false_r.
  - unfold no_dashes in Hl. apply negb_true_iff in Hl. by rewrite Hl.
Qed.

(** *** [collapse_ws] *)

Lemma collapse_ws_Forall (P : ascii -> Prop) (s : text) (b : bool) :
  P " "%char -> Forall P s -> Forall P (collapse_ws_from b s).
Proof.
  intros Hsp H. revert b. induction H as [|c t Hc _ IH]; intros b; simpl;
    [done|].
  destruct (is_space c); [destruct b|]; try constructor; auto.
Qed.

Lemma collapse_ws_plain (s : text) (b : bool) :
  Forall plain_space (collapse_ws_from b s).
Proof.
  revert b. induction s as [|c t IH]; intros b; simpl; [done|].
  destruct (is_space c) eqn:Hc; [destruct b|]; try constructor; auto.
  - done.
  - intros H. congruence.
Qed.

Lemma collapse_ws_headed (s : text) : headed (collapse_ws_from true s).
Proof.
  induction s as [|c t IH]; simpl; [done|].
  destruct (is_space c) eqn:Hc; [done|]. simpl. done.
Qed.

Lemma collapse_ws_no_spaces (s : text) (b : bool) :
  adjacent no_spaces (collapse_ws_from b s).
Proof.
  revert b. induction s as [|c t IH]; intros b; simpl; [done|].
  destruct (is_space c) eqn:Hc.
  - destruct b; [apply IH|]. split; [|apply IH].
    pose proof (collapse_ws_headed t) as Hh.
    destruct (collapse_ws_from true t); simpl in *; [done|].
    unfold no_spaces. by rewrite Hh, andb_false_r.
  - split; [|apply IH].
    destruct (collapse_ws_from false t); simpl; [done|].
    unfold no_spaces. by rewrite Hc.
Qed.

(** The pairs that the collapse brings together have a space on one side;
    the first kept character is the first of the text or a space. *)
Lemma collapse_ws_adjacent (r : ascii -> ascii -> bool) (s : text) :
  (forall a, r a " "%char = true) -> (forall b, r " "%char b = true) ->
  adjacent r s ->
  forall b : bool,
    adjacent r (collapse_ws_from b s) /\
    (forall a, linked r (Some a) s ->
               linked r (Some a) (collapse_ws_from false s)) /\
    linked r (Some " "%char) (collapse_ws_from true s).
Proof.
  intros Hl Hr. induction s as [|c t IH]; intros Ha b; simpl; [done|].
  destruct Ha as [Hct Ha]. specialize (IH Ha).
  destruct (IH true) as (At & _ & Lt). destruct (IH false) as (Af & Lf & _).
  destruct (is_space c) eqn:Hc.
  - split; [|split].
    + destruct b; [done|]. split; [|done].
      destruct (collapse_ws_from true t); simpl in *; [done|apply Lt].
    + intros a _. simpl. apply Hl.
    + done.
  - split; [|split].
    + split; [|done]. by apply Lf.
    + intros a H. exact H.
    + simpl. apply Hr.
Qed.

Lemma collapse_ws_same (s : text) :
  headed s -> collapse_ws_from true s = collapse_ws_from false s.
Proof. destruct s as [|c t]; simpl; [done|]. by intros ->. Qed.

Lemma collapse_ws_id (s : text) :
  Forall plain_space s -> adjacent no_spaces s -> collapse_ws s = s.
Proof.
  unfold collapse_ws. induction 1 as [|c t Hc _ IH]; simpl; [done|].
  intros [Hl Ha]. specialize (IH Ha).
  destruct (is_space c) eqn:Hs.
  - pose proof (Hc Hs) as Ec. subst c. f_equal.
    rewrite collapse_ws_same; [done|].
    destruct t as [|d t]; simpl in *; [done|].
    unfold no_spaces in Hl. simpl in Hl. by apply negb_true_iff in Hl.
  - by rewrite IH.
Qed.

(** *** [squeeze] *)

Section Squeeze.
Variable P : ascii -> bool.
Hypothesis P_not_space : forall c, P c = true -> is_space c = false.

Lemma squeeze_Forall (Q : ascii -> Prop) (s : text) (after : bool) :
  Forall Q s -> Forall Q (squeeze_from P after s).
Proof.
  intros H. revert after. induction H as [|c t Hc _ IH]; intros after; simpl;
    [done|].
  destruct (P c); [by constructor|].
  destruct (is_space c); [|by constructor].
  destruct (after || next_is P t); [done|by constructor].
Qed.

Lemma next_is_space (c : ascii) (t : text) :
  is_space c = true -> next_is P (c :: t) = next_is P t.
Proof. unfold next_is. simpl. by intros ->. Qed.

Lemma next_is_other (c : ascii) (t : text) :
  is_space c = false -> next_is P (c :: t) = P c.
Proof. unfold next_is. simpl. by intros ->. Qed.

Lemma squeeze_after_headed (s : text) : headed (squeeze_from P true s).
Proof.
  induction s as [|c t IH]; simpl; [done|].
  destruct (P c) eqn:Hp; [by apply P_not_space|].
  destruct (is_space c) eqn:Hs; [done|]. simpl. done.
Qed.

Lemma squeeze_head_not_P (s : text) :
  next_is P s = false ->
  match squeeze_from P false s with
  | h :: _ => P h = false
  | [] => True
  end.
Proof.
  destruct s as [|c t]; simpl; [done|]. intros Hn.
  destruct (P c) eqn:Hp.
  - by rewrite next_is_other, Hp in Hn by by apply P_not_space.
  - destruct (is_space c) eqn:Hs; [|done].
    rewrite next_is_space in Hn by done. by rewrite Hn.
Qed.

Lemma squeeze_apart (s : text) (after : bool) :
  adjacent (apart P) (squeeze_from P after s).
Proof.
  revert after. induction s as [|c t IH]; intros after; simpl; [done|].
  destruct (P c) eqn:Hp.
  - split; [|apply IH]. pose proof (squeeze_after_headed t) as Hh.
    destruct (squeeze_from P true t); simpl in *; [done|].
    unfold apart. by rewrite (P_not_space c Hp), Hh, andb_false_r.
  - destruct (is_space c) eqn:Hs.
    + destruct (after || next_is P t) eqn:Ho; [apply IH|].
      apply orb_false_iff in Ho as [-> Hn]. split; [|apply IH].
      pose proof (squeeze_head_not_P t Hn) as Hh.
      destruct (squeeze_from P false t); simpl in *; [done|].
      unfold apart. by rewrite Hh, Hp, andb_false_r.
    + split; [|apply IH].
      destruct (squeeze_from P false t); simpl; [done|].
      unfold apart. by rewrite Hs, Hp.
Qed.

(** The characters that the squeeze brings together are not white space and
    one of them is in [P]. *)
Lemma squeeze_adjacent_from (r : ascii -> ascii -> bool) :
  (forall a b, is_space a = false -> is_space b = false ->
               P a = true \/ P b = true -> r a b = true) ->
  forall (s : text) (after : bool) (a : option ascii),
  adjacent r s -> squeeze_inv P r a after s ->
  linked r a (squeeze_from P after s) /\ adjacent r (squeeze_from P after s).
Proof.
  intros Hr. induction s as [|c t IH]; intros after a Hadj Hinv.
  { simpl. split; [by destruct a|done]. }
  destruct Hadj as [Hct Hadj]. simpl.
  destruct (P c) eqn:Hp.
  - (* a character of [P] is kept *)
    assert (Hsc : is_space c = false) by by apply P_not_space.
    destruct (IH true (Some c) Hadj) as [Hl Ha].
    { split; [by left|]. split; [congruence|done]. }
    split; [|done].
    destruct a as [a|]; [|done]. simpl.
    destruct Hinv as ([[_ Hpa]|[Hl'|[Hsa _]]] & Hj & _).
    + apply Hr; [by apply P_not_space|done|by left].
    + exact Hl'.
    + apply Hr; [done|done|by right].
  - destruct (is_space c) eqn:Hs.
    + destruct (after || next_is P t) eqn:Ho.
      * (* white space is dropped *)
        apply IH; [done|]. destruct a as [a|]; [|exact Hinv].
        destruct Hinv as (Hi & Hj & Hk).
        rewrite next_is_space in Hi, Hj by done.
        destruct after.
        -- split; [left; auto|]. split; [|done].
           intros Hsa. rewrite (P_not_space a (Hk eq_refl)) in Hsa. done.
        -- simpl in Ho. split; [|split; [|done]].
           ++ right. right. split; [|done].
              destruct (is_space a) eqn:Hsa; [|done].
              rewrite Hj in Ho by done. done.
           ++ intros Hsa. rewrite Hj in Ho by done. done.
      * (* white space is kept *)
        apply orb_false_iff in Ho as [-> Hn].
        destruct (IH false (Some c) Hadj) as [Hl Ha].
        { split; [right; left; exact Hct|]. split; [done|done]. }
        split; [|done].
        destruct a as [a|]; [|done]. simpl.
        destruct Hinv as ([[? _]|[Hl'|[_ Hn']]] & _ & _); [done|exact Hl'|].
        rewrite next_is_space in Hn' by done. congruence.
    + (* another character is kept *)
      destruct (IH false (Some c) Hadj) as [Hl Ha].
      { split; [right; left; exact Hct|]. split; [congruence|done]. }
      split; [|done].
      destruct a as [a|]; [|done]. simpl.
      destruct Hinv as ([[_ Hpa]|[Hl'|[_ Hn']]] & _ & _).
      * apply Hr; [by apply P_not_space|done|by left].
      * exact Hl'.
      * rewrite next_is_other in Hn' by done. congruence.
Qed.

Lemma squeeze_adjacent (r : ascii -> ascii -> bool) (s : text) :
  (forall a b, is_space a = false -> is_space b = false ->
               P a = true \/ P b = true -> r a b = true) ->
  adjacent r s -> adjacent r (squeeze P s).
Proof.
  intros Hr Ha. by apply (squeeze_adjacent_from r Hr s false None).
Qed.

Lemma apart_next_is (c : ascii) (t : text) :
  adjacent (apart P) (c :: t) -> is_space c = true -> next_is P t = false.
Proof.
  revert c. induction t as [|d t IH]; intros c [Hl Ha] Hs; [done|].
  simpl in Hl. unfold apart in Hl. rewrite Hs in Hl. simpl in Hl.
  apply andb_true_iff in Hl as [Hpd _]. apply negb_true_iff in Hpd.
  destruct (is_space d) eqn:Hd.
  - rewrite next_is_space by done. by apply (IH d).
  - by rewrite next_is_other.
Qed.

Lemma squeeze_id_from (s : text) (after : bool) :
  adjacent (apart P) s -> (after = true -> headed s) ->
  squeeze_from P after s = s.
Proof.
  revert after. induction s as [|c t IH]; intros after Ha Hh; simpl; [done|].
  pose proof Ha as [Hl Ha'].
  destruct (P c) eqn:Hp.
  - f_equal. apply IH; [done|]. intros _.
    destruct t as [|d t]; simpl in *; [done|].
    unfold apart in Hl. rewrite Hp in Hl. simpl in Hl.
    apply andb_true_iff in Hl as [_ Hl]. by apply negb_true_iff in Hl.
  - destruct (is_space c) eqn:Hs.
    + destruct after; [specialize (Hh eq_refl); simpl in Hh; congruence|].
      rewrite (apart_next_is c t Ha Hs). simpl. f_equal. by apply IH.
    + f_equal. by apply IH.
Qed.

Lemma squeeze_id (s : text) : adjacent (apart P) s -> squeeze P s = s.
Proof. intros H. by apply squeeze_id_from. Qed.

End Squeeze.

(** *** [remove_trailing_semicolon] *)

Lemma remove_trailing_semicolon_prefix (s : text) :
  exists k, s = remove_trailing_semicolon s ++ k.
Proof.
  induction s as [|c t [k IH]]; simpl; [by exists []|].
  destruct (is_semicolon c && forallb is_space t); [by exists (c :: t)|].
  exists k. simpl. by f_equal.
Qed.

Lemma last_all (Q : ascii -> bool) (t : text) :
  forallb Q t = true -> t ≠ [] -> exists d, last t = Some d /\ Q d = true.
Proof.
  induction t as [|c t IH]; [done|]. simpl. intros [Hc Ht]%andb_true_iff _.
  destruct t as [|d t]; [by exists c|].
  destruct IH as (e & He & Hq); [done|done|]. exists e.
  by rewrite last_cons_cons.
Qed.

Lemma not_ending_tail (Q : ascii -> bool) (c : ascii) (t : text) :
  not_ending Q (c :: t) -> not_ending Q t.
Proof. unfold not_ending. destruct t; [done|]. by rewrite last_cons_cons. Qed.

Lemma remove_trailing_semicolon_id (s : text) :
  not_ending is_semicolon s -> not_ending is_space s ->
  remove_trailing_semicolon s = s.
Proof.
  induction s as [|c t IH]; simpl; [done|]. intros H1 H2.
  destruct (is_semicolon c && forallb is_space t) eqn:E.
  - exfalso. apply andb_true_iff in E as [Hc Ht].
    destruct t as [|d t].
    + unfold not_ending in H1. simpl in H1. congruence.
    + destruct (last_all is_space (d :: t) Ht) as (e & He & Hs); [done|].
      unfold not_ending in H2. rewrite last_cons_cons, He in H2. congruence.
  - f_equal. apply IH; by eapply not_ending_tail.
Qed.

(** *** [sub_var] *)

Lemma strip_prefix_spec (p s r : text) :
  strip_prefix p s = Some r <-> s = p ++ r.
Proof.
  revert s. induction p as [|a p IH]; intros s; simpl.
  - split; congruence.
  - destruct s as [|b s]; [split; congruence|].
    unfold ascii_eqb. destruct (Ascii.eqb a b) eqn:E.
    + apply Ascii.eqb_eq in E as ->. rewrite IH. split; congruence.
    + apply Ascii.eqb_neq in E. split; congruence.
Qed.

Lemma lstrip_spec (s : text) :
  exists w, s = w ++ lstrip s /\ forallb is_space w = true.
Proof.
  induction s as [|c t (w & IH & Hw)]; simpl; [by exists []|].
  destruct (is_space c) eqn:Hc; [|by exists []].
  exists (c :: w). simpl. rewrite Hc, Hw. split; [by f_equal|done].
Qed.

Lemma lstrip_spaces (w r : text) :
  forallb is_space w = true -> headed r -> lstrip (w ++ r) = r.
Proof.
  induction w as [|c w IH]; simpl.
  - intros _. apply lstrip_id.
  - intros [-> Hw]%andb_true_iff Hr. by apply IH.
Qed.

Lemma expect_Some (lit : string) (o : option text) (r : text) :
  expect lit o = Some r <-> exists s, o = Some s /\ s = of_string lit ++ r.
Proof.
  unfold expect. destruct o as [s|]; simpl.
  - rewrite strip_prefix_spec. split; [by eexists|by intros (? & [= <-] & ?)].
  - split; [done|by intros (? & ? & ?)].
Qed.

Lemma skip_ws_Some (o : option text) (r : text) :
  skip_ws o = Some r ->
  exists s w, o = Some s /\ s = w ++ r /\ forallb is_space w = true.
Proof.
  unfold skip_ws. destruct o as [s|]; simpl; [|done]. intros [= <-].
  destruct (lstrip_spec s) as (w & Hs & Hw). by exists s, w.
Qed.

Lemma expect_quote_Some (o : option text) (r : text) :
  expect_quote o = Some r <->
  exists q, o = Some (q :: r) /\ is_quote q = true.
Proof.
  unfold expect_quote. destruct o as [[|c t]|]; simpl.
  - split; [done|by intros (? & ? & ?)].
  - destruct (is_quote c) eqn:Hq.
    + split; [intros [= <-]; by exists c|by intros (? & [= <- <-] & ?)].
    + split; [done|]. intros (? & [= <- <-] & ?). congruence.
  - split; [done|by intros (? & ? & ?)].
Qed.

Lemma match_var_spec (s r : text) :
  match_var s = Some r <-> exists m, var_match m /\ s = m ++ r.
Proof.
  unfold match_var. split.
  - intros H.
    apply expect_Some in H as (s12 & H & ->).
    apply skip_ws_Some in H as (s11 & w5 & H & -> & Hw5).
    apply expect_Some in H as (s10 & H & ->).
    apply skip_ws_Some in H as (s9 & w4 & H & -> & Hw4).
    apply expect_quote_Some in H as (q2 & H & Hq2).
    apply expect_Some in H as (s7 & H & ->).
    apply expect_quote_Some in H as (q1 & H & Hq1).
    apply skip_ws_Some in H as (s5 & w3 & H & -> & Hw3).
    apply expect_Some in H as (s4 & H & ->).
    apply skip_ws_Some in H as (s3 & w2 & H & -> & Hw2).
    apply expect_Some in H as (s2 & H & ->).
    apply skip_ws_Some in H as (s1 & w1 & H & -> & Hw1).
    apply expect_Some in H as (s0 & [= <-] & ->).
    eexists. split.
    + exists w1, w2, w3, w4, w5, q1, q2. repeat (split; [done|]). reflexivity.
    + simpl. repeat (rewrite <- app_assoc; simpl). reflexivity.
  - intros (m & (w1 & w2 & w3 & w4 & w5 & q1 & q2 & Hw1 & Hw2 & Hw3 & Hw4
                 & Hw5 & Hq1 & Hq2 & ->) & ->).
    apply expect_Some. eexists. split; [|reflexivity].
    unfold skip_ws, expect, expect_quote. simpl.
    rewrite <- !app_assoc. rewrite lstrip_spaces by done. simpl.
    rewrite <- !app_assoc. rewrite lstrip_spaces by done. simpl.
    rewrite <- !app_assoc. rewrite lstrip_spaces
      by (try done; simpl; by destruct q1 as [[] [] [] [] [] [] [] []]).
    simpl. rewrite Hq1. simpl. rewrite Hq2. simpl.
    rewrite <- !app_assoc. rewrite lstrip_spaces by done. simpl.
    rewrite <- !app_assoc. rewrite lstrip_spaces by done. simpl. done.
Qed.

Lemma space_not_sit (c : ascii) : is_space c = true -> is_sit c = false.
Proof. by destruct c as [[] [] [] [] [] [] [] []]. Qed.

Lemma quote_not_sit (c : ascii) : is_quote c = true -> is_sit c = false.
Proof. by destruct c as [[] [] [] [] [] [] [] []]. Qed.

Lemma spaces_no_sit (w : text) :
  forallb is_space w = true -> Forall (fun c => is_sit c = false) w.
Proof.
  induction w as [|c w IH]; simpl; [done|].
  intros [Hc Hw]%andb_true_iff. constructor; [by apply space_not_sit|auto].
Qed.

Lemma var_match_no_sit (m : text) :
  var_match m -> Forall (fun c => is_sit c = false) m.
Proof.
  intros (w1 & w2 & w3 & w4 & w5 & q1 & q2 & Hw1 & Hw2 & Hw3 & Hw4 & Hw5
          & Hq1 & Hq2 & ->).
  apply spaces_no_sit in Hw1, Hw2, Hw3, Hw4, Hw5.
  apply quote_not_sit in Hq1, Hq2. simpl.
  repeat first
    [ apply Forall_cons_2; [done|]
    | apply Forall_app_2; [done|]
    | apply Forall_nil_2 ].
Qed.

Lemma var_match_length (m : text) : var_match m -> 0 < length m.
Proof.
  intros (w1 & w2 & w3 & w4 & w5 & q1 & q2 & _ & _ & _ & _ & _ & _ & _ & ->).
  simpl. lia.
Qed.

Lemma match_var_shorter (s r : text) :
  match_var s = Some r -> length r < length s.
Proof.
  intros (m & Hm & ->)%match_var_spec. rewrite length_app.
  pose proof (var_match_length m Hm). lia.
Qed.

Lemma match_var_sit (c : ascii) (t : text) :
  is_sit c = true -> match_var (c :: t) = None.
Proof.
  intros Hc. destruct (match_var (c :: t)) as [r|] eqn:E; [|done].
  apply match_var_spec in E as (m & Hm & E).
  pose proof (var_match_no_sit m Hm) as Hs.
  destruct m as [|d m]; [apply var_match_length in Hm; simpl in Hm; lia|].
  injection E as <- _. apply Forall_cons in Hs as [Hs _]. congruence.
Qed.

Lemma sub_var_go_0 (s : text) : sub_var_go 0 s = s.
Proof. reflexivity. Qed.

Lemma sub_var_go_nil (n : nat) : sub_var_go n [] = [].
Proof. by destruct n. Qed.

Lemma sub_var_go_S (n : nat) (c : ascii) (t : text) :
  sub_var_go (S n) (c :: t)
  = match match_var (c :: t) with
    | Some rest => "S"%char :: "I"%char :: "T"%char :: sub_var_go n rest
    | None => c :: sub_var_go n t
    end.
Proof. reflexivity. Qed.

(** A match does not reach over a letter of [SIT]. *)
Lemma split_at_barrier (Q : ascii -> bool) (m : text) :
  Forall (fun c => Q c = false) m ->
  forall (u v r : text) (c : ascii),
    Q c = true -> u ++ c :: v = m ++ r -> exists x, u = m ++ x.
Proof.
  induction 1 as [|d m Hd _ IH]; intros u v r c Hc E.
  - by exists u.
  - destruct u as [|e u]; cbn [app] in E.
    + injection E as -> _. congruence.
    + injection E as -> E. destruct (IH u v r c Hc E) as [x ->]. by exists x.
Qed.

Lemma match_var_extend (m r : text) :
  var_match m -> match_var (m ++ r) = Some r.
Proof. intros Hm. apply match_var_spec. by exists m. Qed.

(** A match that starts before a piece of text and succeeds after the
    substitution in that piece, succeeds before the substitution as well. *)
Lemma match_var_before_sub (n : nat) :
  forall u t r : text,
    match_var (u ++ sub_var_go n t) = Some r ->
    exists r0, match_var (u ++ t) = Some r0.
Proof.
  induction n as [|n IH]; intros u t r H.
  { rewrite sub_var_go_0 in H. by eexists. }
  destruct t as [|d t]; [rewrite sub_var_go_nil in H; by eexists|].
  rewrite sub_var_go_S in H.
  destruct (match_var (d :: t)) as [rest|] eqn:E.
  - apply match_var_spec in H as (m & Hm & H).
    destruct (split_at_barrier is_sit m (var_match_no_sit m Hm) u
                ("I"%char :: "T"%char :: sub_var_go n rest) r "S"%char
                eq_refl H)
      as [x ->].
    exists (x ++ d :: t). rewrite <- app_assoc. by apply match_var_extend.
  - replace (u ++ d :: sub_var_go n t) with ((u ++ [d]) ++ sub_var_go n t) in H
      by by rewrite <- app_assoc.
    apply IH in H as [r0 H]. exists r0. by rewrite <- app_assoc in H.
Qed.

Lemma no_var_cons (c : ascii) (s : text) :
  no_var (c :: s) <-> match_var (c :: s) = None /\ no_var s.
Proof.
  split.
  - intros H. split; [by apply (H [])|].
    intros s1 s2 ->. by apply (H (c :: s1)).
  - intros [H1 H2] s1 s2 E. destruct s1 as [|d s1]; cbn [app] in E.
    + by subst.
    + injection E as _ E. by apply (H2 s1).
Qed.

Lemma no_var_nil : no_var [].
Proof. intros s1 s2 E. symmetry in E. by apply app_eq_nil in E as [_ ->]. Qed.

Lemma sub_var_go_no_var (n : nat) :
  forall s : text, length s <= n -> no_var (sub_var_go n s).
Proof.
  induction n as [|n IH]; intros s Hn.
  - destruct s; [apply no_var_nil|cbn [length] in Hn; lia].
  - destruct s as [|c t]; [rewrite sub_var_go_nil; apply no_var_nil|].
    rewrite sub_var_go_S.
    destruct (match_var (c :: t)) as [rest|] eqn:E.
    + pose proof (match_var_shorter _ _ E) as Hlen. cbn [length] in Hn, Hlen.
      repeat (apply no_var_cons; split; [by apply match_var_sit|]).
      apply IH. lia.
    + apply no_var_cons. split; [|apply IH; cbn [length] in Hn; lia].
      destruct (match_var (c :: sub_var_go n t)) as [r|] eqn:E'; [|done].
      destruct (match_var_before_sub n [c] t r E') as [r0 Hr0].
      cbn [app] in Hr0. congruence.
Qed.

Lemma sub_var_no_var (s : text) : no_var (sub_var s).
Proof. by apply sub_var_go_no_var. Qed.

Lemma sub_var_go_id (n : nat) :
  forall s : text, no_var s -> sub_var_go n s = s.
Proof.
  induction n as [|n IH]; intros s Hs; [done|].
  destruct s as [|c t]; [done|]. rewrite sub_var_go_S.
  apply no_var_cons in Hs as [-> Ht]. f_equal. by apply IH.
Qed.

Lemma no_var_infix (a s b : text) : no_var (a ++ s ++ b) -> no_var s.
Proof.
  intros H s1 s2 ->. destruct (match_var s2) as [r|] eqn:E; [|done].
  apply match_var_spec in E as (m & Hm & ->).
  specialize (H (a ++ s1) (m ++ r ++ b)).
  rewrite match_var_extend in H by done.
  discriminate H. by rewrite <- !app_assoc.
Qed.

Lemma sub_var_go_Forall (Q : ascii -> Prop) (n : nat) :
  Q "S"%char -> Q "I"%char -> Q "T"%char ->
  forall s : text, Forall Q s -> Forall Q (sub_var_go n s).
Proof.
  intros HS HI HT. induction n as [|n IH]; intros s Hs; [done|].
  destruct s as [|c t]; [done|]. rewrite sub_var_go_S.
  destruct (match_var (c :: t)) as [rest|] eqn:E.
  - apply match_var_spec in E as (m & _ & E). rewrite E in Hs.
    apply Forall_app in Hs as [_ Hs]. repeat constructor; auto.
  - apply Forall_cons in Hs as [Hc Ht]. constructor; auto.
Qed.

(** The pairs that the substitution brings together have a letter of [SIT]
    on one side. *)
Lemma sub_var_go_adjacent (r : ascii -> ascii -> bool) (n : nat) :
  (forall a b, is_sit a = true \/ is_sit b = true -> r a b = true) ->
  forall (s : text) (a : option ascii),
    adjacent r s -> linked r a s ->
    linked r a (sub_var_go n s) /\ adjacent r (sub_var_go n s).
Proof.
  intros Hr. induction n as [|n IH]; intros s a Hs Ha; [done|].
  destruct s as [|c t]; [done|]. rewrite sub_var_go_S.
  destruct (match_var (c :: t)) as [rest|] eqn:E.
  - apply match_var_spec in E as (m & _ & E). rewrite E in Hs.
    apply adjacent_app_inv in Hs as [_ Hs].
    destruct (IH rest (Some "T"%char) Hs) as [Hl Hadj].
    { destruct rest; cbn [linked]; [done|]. apply Hr. by left. }
    split.
    + destruct a; cbn [linked]; [|done]. apply Hr. by right.
    + cbn [adjacent linked].
      split; [apply Hr; by left|]. split; [apply Hr; by left|]. done.
  - destruct Hs as [Hct Ht].
    destruct (IH t (Some c) Ht Hct) as [Hl Hadj]. split; [|done].
    destruct a; cbn [linked] in *; done.
Qed.

(** *** Characters *)

Ltac by_cases_on c := by destruct c as [[] [] [] [] [] [] [] []].

Lemma punct_not_space (c : ascii) : is_punct c = true -> is_space c = false.
Proof. by_cases_on c. Qed.
Lemma comma_not_space (c : ascii) : is_comma c = true -> is_space c = false.
Proof. by_cases_on c. Qed.
Lemma equals_not_space (c : ascii) : is_equals c = true -> is_space c = false.
Proof. by_cases_on c. Qed.
Lemma punct_not_dash (c : ascii) : is_punct c = true -> is_dash c = false.
Proof. by_cases_on c. Qed.
Lemma equals_not_dash (c : ascii) : is_equals c = true -> is_dash c = false.
Proof. by_cases_on c. Qed.
Lemma sit_not_dash (c : ascii) : is_sit c = true -> is_dash c = false.
Proof. by_cases_on c. Qed.
Lemma sit_not_space (c : ascii) : is_sit c = true -> is_space c = false.
Proof. by_cases_on c. Qed.
Lemma sit_not_punct (c : ascii) : is_sit c = true -> is_punct c = false.
Proof. by_cases_on c. Qed.
Lemma sit_not_equals (c : ascii) : is_sit c = true -> is_equals c = false.
Proof. by_cases_on c. Qed.
Lemma comma_is_punct (c : ascii) : is_comma c = true -> is_punct c = true.
Proof. by_cases_on c. Qed.

Lemma no_dashes_l (a b : ascii) : is_dash a = false -> no_dashes a b = true.
Proof. unfold no_dashes. by intros ->. Qed.
Lemma no_dashes_r (a b : ascii) : is_dash b = false -> no_dashes a b = true.
Proof. unfold no_dashes. intros ->. by rewrite andb_false_r. Qed.
Lemma no_spaces_l (a b : ascii) : is_space a = false -> no_spaces a b = true.
Proof. unfold no_spaces. by intros ->. Qed.
Lemma no_spaces_r (a b : ascii) : is_space b = false -> no_spaces a b = true.
Proof. unfold no_spaces. intros ->. by rewrite andb_false_r. Qed.
Lemma apart_clear (P : ascii -> bool) (a b : ascii) :
  is_space a = false -> is_space b = false -> apart P a b = true.
Proof. unfold apart. intros -> ->. by rewrite andb_false_r. Qed.
Lemma apart_l (P : ascii -> bool) (a b : ascii) :
  is_space a = false -> P a = false -> apart P a b = true.
Proof. unfold apart. by intros -> ->. Qed.
Lemma apart_r (P : ascii -> bool) (a b : ascii) :
  is_space b = false -> P b = false -> apart P a b = true.
Proof. unfold apart. intros -> ->. by rewrite !andb_false_r. Qed.

Lemma apart_comma_of_punct (s : text) :
  adjacent (apart is_punct) s -> adjacent (apart is_comma) s.
Proof.
  apply adjacent_mono. intros a b. unfold apart.
  intros [H1 H2]%andb_true_iff. apply negb_true_iff in H1, H2.
  apply andb_true_iff. split; apply negb_true_iff.
  - destruct (is_space a); [|done]. simpl in *.
    destruct (is_comma b) eqn:E; [|done]. by rewrite (comma_is_punct b E) in H1.
  - destruct (is_comma a) eqn:E; [|done]. rewrite (comma_is_punct a E) in H2.
    done.
Qed.

(** *** The shape of a normalized DDL text *)

Lemma sub_var_adjacent (r : ascii -> ascii -> bool) (s : text) :
  (forall a b, is_sit a = true \/ is_sit b = true -> r a b = true) ->
  adjacent r s -> adjacent r (sub_var s).
Proof.
  intros Hr Hs. by apply (sub_var_go_adjacent r (length s) Hr s None).
Qed.

Lemma collapse_adjacent (r : ascii -> ascii -> bool) (s : text) :
  (forall a, r a " "%char = true) -> (forall b, r " "%char b = true) ->
  adjacent r s -> adjacent r (collapse_ws s).
Proof. intros Hl Hr Hs. by apply (collapse_ws_adjacent r s Hl Hr Hs false). Qed.

Lemma ddl_pipeline_shape (s : text) :
  Forall upper_fixed s -> ddl_shape (ddl_pipeline s).
Proof.
  intros U1. unfold ddl_pipeline.
  (* comments *)
  set (s2 := remove_comments s).
  assert (U2 : Forall upper_fixed s2) by by apply remove_comments_Forall.
  assert (D2 : adjacent no_dashes s2) by apply remove_comments_no_dashes.
  (* white space *)
  set (s3 := collapse_ws s2).
  assert (U3 : Forall upper_fixed s3) by by apply collapse_ws_Forall.
  assert (W3 : Forall plain_space s3) by apply collapse_ws_plain.
  assert (D3 : adjacent no_dashes s3).
  { apply collapse_adjacent; [intros a|intros b|done].
    - by apply no_dashes_r. - by apply no_dashes_l. }
  assert (S3 : adjacent no_spaces s3) by apply collapse_ws_no_spaces.
  (* punctuation *)
  set (s4 := squeeze is_punct s3).
  assert (U4 : Forall upper_fixed s4) by by apply squeeze_Forall.
  assert (W4 : Forall plain_space s4) by by apply squeeze_Forall.
  assert (D4 : adjacent no_dashes s4).
  { apply squeeze_adjacent; [apply punct_not_space| |done].
    intros a b _ _ [H|H]; [apply no_dashes_l|apply no_dashes_r];
      by apply punct_not_dash. }
  assert (S4 : adjacent no_spaces s4).
  { apply squeeze_adjacent; [apply punct_not_space| |done].
    intros a b Ha _ _. by apply no_spaces_l. }
  assert (P4 : adjacent (apart is_punct) s4)
    by apply squeeze_apart, punct_not_space.
  (* commas: already done by the punctuation *)
  assert (E5 : squeeze is_comma s4 = s4).
  { by apply squeeze_id, apart_comma_of_punct. }
  rewrite E5.
  (* equals signs *)
  set (s6 := squeeze is_equals s4).
  assert (U6 : Forall upper_fixed s6) by by apply squeeze_Forall.
  assert (W6 : Forall plain_space s6) by by apply squeeze_Forall.
  assert (D6 : adjacent no_dashes s6).
  { apply squeeze_adjacent; [apply equals_not_space| |done].
    intros a b _ _ [H|H]; [apply no_dashes_l|apply no_dashes_r];
      by apply equals_not_dash. }
  assert (S6 : adjacent no_spaces s6).
  { apply squeeze_adjacent; [apply equals_not_space| |done].
    intros a b Ha _ _. by apply no_spaces_l. }
  assert (P6 : adjacent (apart is_punct) s6).
  { apply squeeze_adjacent; [apply equals_not_space| |done].
    intros a b Ha Hb _. by apply apart_clear. }
  assert (Q6 : adjacent (apart is_equals) s6)
    by apply squeeze_apart, equals_not_space.
  (* the last semicolon *)
  set (s7 := remove_trailing_semicolon s6).
  destruct (remove_trailing_semicolon_prefix s6) as [k7 E7]. fold s7 in E7.
  rewrite E7 in U6, W6, D6, S6, P6, Q6.
  apply Forall_app in U6 as [U7 _]. apply Forall_app in W6 as [W7 _].
  apply adjacent_app_inv in D6 as [D7 _].
  apply adjacent_app_inv in S6 as [S7 _].
  apply adjacent_app_inv in P6 as [P7 _].
  apply adjacent_app_inv in Q6 as [Q7 _].
  (* the template variable *)
  set (s8 := sub_var s7).
  assert (U8 : Forall upper_fixed s8) by by apply sub_var_go_Forall.
  assert (W8 : Forall plain_space s8) by by apply sub_var_go_Forall.
  assert (D8 : adjacent no_dashes s8).
  { apply sub_var_adjacent; [|done].
    intros a b [H|H]; [apply no_dashes_l|apply no_dashes_r];
      by apply sit_not_dash. }
  assert (S8 : adjacent no_spaces s8).
  { apply sub_var_adjacent; [|done].
    intros a b [H|H]; [apply no_spaces_l|apply no_spaces_r];
      by apply sit_not_space. }
  assert (P8 : adjacent (apart is_punct) s8).
  { apply sub_var_adjacent; [|done].
    intros a b [H|H]; [apply apart_l|apply apart_r];
      try (by apply sit_not_space); by apply sit_not_punct. }
  assert (Q8 : adjacent (apart is_equals) s8).
  { apply sub_var_adjacent; [|done].
    intros a b [H|H]; [apply apart_l|apply apart_r];
      try (by apply sit_not_space); by apply sit_not_equals. }
  assert (V8 : no_var s8) by apply sub_var_no_var.
  (* the final strip *)
  destruct (strip_infix s8) as (a9 & b9 & E9).
  rewrite E9 in U8, W8, D8, S8, P8, Q8, V8.
  split.
  - by eapply Forall_infix.
  - by eapply Forall_infix.
  - by eapply adjacent_infix.
  - by eapply adjacent_infix.
  - by eapply adjacent_infix.
  - by eapply adjacent_infix.
  - by eapply no_var_infix.
  - apply strip_idem.
Qed.

(** A text of that shape that does not end with a semicolon is its own
    normal form. *)
Lemma ddl_shape_fixed (y : text) :
  ddl_shape y -> not_ending is_semicolon y -> normalize_ddl_text y = y.
Proof.
  intros [U W D S P Q V T] Hsemi.
  rewrite normalize_ddl_text_pipeline, (upper_fixed_id y U), T.
  unfold ddl_pipeline.
  rewrite (remove_comments_id y D), (collapse_ws_id y W S).
  rewrite (squeeze_id is_punct y P).
  rewrite (squeeze_id is_comma y (apart_comma_of_punct y P)).
  rewrite (squeeze_id is_equals y Q).
  rewrite (remove_trailing_semicolon_id y Hsemi).
  - unfold sub_var. by rewrite (sub_var_go_id _ y V).
  - apply rstrip_not_ending. rewrite <- T. unfold strip. apply rstrip_idem.
Qed.

Lemma normalize_ddl_text_shape (x : text) : ddl_shape (normalize_ddl_text x).
Proof.
  rewrite normalize_ddl_text_pipeline. apply ddl_pipeline_shape.
  destruct (strip_infix (upper x)) as (a & b & E).
  pose proof (upper_is_fixed x) as U. rewrite E in U. by eapply Forall_infix.
Qed.

(** *** [unquote] *)

Lemma span_not_spec (q : ascii) (s g r : text) :
  span_not q s = (g, r) -> s = g ++ r.
Proof.
  revert g r. induction s as [|c t IH]; intros g r; simpl.
  - by intros [= <- <-].
  - destruct (ascii_eqb c q); [by intros [= <- <-]|].
    destruct (span_not q t) as [g' r'] eqn:E. intros [= <- <-].
    by rewrite (IH g' r' eq_refl).
Qed.

Lemma match_quoted_spec (pre : text) (q : ascii) (post s g rest : text) :
  match_quoted pre q post s = Some (g, rest) ->
  s = pre ++ q :: g ++ q :: post ++ rest.
Proof.
  unfold match_quoted.
  destruct (strip_prefix (pre ++ [q]) s) as [r|] eqn:E1; [|done].
  apply strip_prefix_spec in E1 as ->.
  destruct (span_not q r) as [g' r'] eqn:E2.
  apply span_not_spec in E2 as ->.
  destruct g' as [|c g']; [done|].
  destruct (strip_prefix (q :: post) r') as [rest'|] eqn:E3; [|done].
  apply strip_prefix_spec in E3 as ->. intros [= <- <-].
  by rewrite <- !app_assoc.
Qed.

Lemma unquote_go_0 (pre : text) (q : ascii) (post s : text) :
  unquote_go 0 pre q post s = s.
Proof. done. Qed.

Lemma unquote_go_nil (n : nat) (pre : text) (q : ascii) (post : text) :
  unquote_go n pre q post [] = [].
Proof. by destruct n. Qed.

Lemma unquote_go_S (n : nat) (pre : text) (q : ascii) (post : text)
  (c : ascii) (t : text) :
  unquote_go (S n) pre q post (c :: t) =
  match match_quoted pre q post (c :: t) with
  | Some (g, rest) => g ++ unquote_go n pre q post rest
  | None => c :: unquote_go n pre q post t
  end.
Proof. done. Qed.

(** What [unquote] returns is made of characters of its argument. *)
Lemma unquote_go_Forall (Q : ascii -> Prop) (n : nat) (pre : text) (q : ascii)
  (post : text) :
  forall s : text, Forall Q s -> Forall Q (unquote_go n pre q post s).
Proof.
  induction n as [|n IH]; intros s Hs; [done|].
  destruct s as [|c t]; [done|]. rewrite unquote_go_S.
  destruct (match_quoted pre q post (c :: t)) as [[g rest]|] eqn:E.
  - apply match_quoted_spec in E. rewrite E in Hs.
    apply Forall_app in Hs as [_ Hs]. apply Forall_cons in Hs as [_ Hs].
    apply Forall_app in Hs as [Hg Hs]. apply Forall_cons in Hs as [_ Hs].
    apply Forall_app in Hs as [_ Hs]. apply Forall_app_2; [done|by apply IH].
  - apply Forall_cons in Hs as [Hc Ht]. apply Forall_cons_2; [done|].
    by apply IH.
Qed.

Lemma unquote_Forall (Q : ascii -> Prop) (pre : string) (q : ascii)
  (post : string) (s : text) :
  Forall Q s -> Forall Q (unquote pre q post s).
Proof. apply unquote_go_Forall. Qed.

(** Without the quote character there is nothing to take away. *)
Lemma unquote_go_id (n : nat) (pre : text) (q : ascii) (post : text) :
  forall s : text,
    Forall (fun c => ascii_eqb c q = false) s -> unquote_go n pre q post s = s.
Proof.
  induction n as [|n IH]; intros s Hs; [done|].
  destruct s as [|c t]; [done|]. rewrite unquote_go_S.
  destruct (match_quoted pre q post (c :: t)) as [[g rest]|] eqn:E.
  - exfalso. apply match_quoted_spec in E. rewrite E in Hs.
    apply Forall_app in Hs as [_ Hs]. apply Forall_cons in Hs as [Hq _].
    unfold ascii_eqb in Hq. by rewrite Ascii.eqb_refl in Hq.
  - apply Forall_cons in Hs as [_ Ht]. f_equal. by apply IH.
Qed.

Lemma no_quotes_squote (s : text) :
  no_quotes s -> Forall (fun c => ascii_eqb c squote = false) s.
Proof.
  unfold no_quotes. intros Hs. eapply Forall_impl; [exact Hs|].
  intros c H. unfold is_quote in H.
  by apply orb_false_iff in H as [H _].
Qed.

Lemma no_quotes_dquote (s : text) :
  no_quotes s -> Forall (fun c => ascii_eqb c dquote = false) s.
Proof.
  unfold no_quotes. intros Hs. eapply Forall_impl; [exact Hs|].
  intros c H. unfold is_quote in H.
  by apply orb_false_iff in H as [_ H].
Qed.

Lemma unquote_id (pre : string) (q : ascii) (post : string) (s : text) :
  Forall (fun c => ascii_eqb c q = false) s -> unquote pre q post s = s.
Proof. apply unquote_go_id. Qed.

(** *** The shape of a normalized grant *)

Lemma normalize_grant_text_shape (x : text) :
  grant_shape (normalize_grant_text x).
Proof.
  unfold normalize_grant_text.
  set (s1 := strip (upper x)).
  assert (U1 : Forall upper_fixed s1).
  { destruct (strip_infix (upper x)) as (a & b & E).
    pose proof (upper_is_fixed x) as U. rewrite E in U.
    by eapply Forall_infix. }
  set (s3 := unquote _ dquote _ (unquote _ squote _ s1)).
  assert (U3 : Forall upper_fixed s3) by by do 2 apply unquote_Forall.
  set (s4 := collapse_ws s3).
  assert (U4 : Forall upper_fixed s4) by by apply collapse_ws_Forall.
  assert (W4 : Forall plain_space s4) by apply collapse_ws_plain.
  set (s6 := unquote _ dquote _ (unquote _ squote _ s4)).
  assert (U6 : Forall upper_fixed s6) by by do 2 apply unquote_Forall.
  assert (W6 : Forall plain_space s6) by by do 2 apply unquote_Forall.
  destruct (strip_infix s6) as (a & b & E). rewrite E in U6, W6.
  split; [by eapply Forall_infix|by eapply Forall_infix|apply strip_idem].
Qed.

(** A text of that shape without quotes and without two white spaces in a
    row is its own normal form. *)
Lemma grant_shape_fixed (y : text) :
  grant_shape y -> no_quotes y -> adjacent no_spaces y ->
  normalize_grant_text y = y.
Proof.
  intros [U W T] Hq Hs. unfold normalize_grant_text.
  rewrite (upper_fixed_id y U), T.
  rewrite (unquote_id _ squote _ y (no_quotes_squote y Hq)).
  rewrite (unquote_id _ dquote _ y (no_quotes_dquote y Hq)).
  rewrite (collapse_ws_id y W Hs).
  rewrite (unquote_id _ squote _ y (no_quotes_squote y Hq)).
  rewrite (unquote_id _ dquote _ y (no_quotes_dquote y Hq)).
  done.
Qed.

(** *** Normalizing twice *)

(** C4, as stated, fails: a second [normalize_ddl] takes away one more
    closing semicolon, and a second [normalize_grant] takes away one more
    pair of quotes. *)
Lemma C4_normalization_not_idempotent :
  normalize_ddl "create table t (a int);;" = "CREATE TABLE T(A INT);" /\
  normalize_ddl (normalize_ddl "create table t (a int);;")
    = "CREATE TABLE T(A INT)" /\
  normalize_grant "grant usage on schema ''s'' to role r"
    = "GRANT USAGE ON SCHEMA 'S' TO ROLE R" /\
  normalize_grant (normalize_grant "grant usage on schema ''s'' to role r")
    = "GRANT USAGE ON SCHEMA S TO ROLE R" /\
  ~ (forall x, normalize_ddl (normalize_ddl x) = normalize_ddl x) /\
  ~ (forall g, normalize_grant (normalize_grant g) = normalize_grant g).
Proof.
  assert (E1 : normalize_ddl (normalize_ddl "create table t (a int);;")
               = "CREATE TABLE T(A INT)") by vm_refl.
  assert (E2 : normalize_ddl "create table t (a int);;"
               = "CREATE TABLE T(A INT);") by vm_refl.
  assert (E3 : normalize_grant
                 (normalize_grant "grant usage on schema ''s'' to role r")
               = "GRANT USAGE ON SCHEMA S TO ROLE R") by vm_refl.
  assert (E4 : normalize_grant "grant usage on schema ''s'' to role r"
               = "GRANT USAGE ON SCHEMA 'S' TO ROLE R") by vm_refl.
  repeat split; try assumption.
  - intros H. specialize (H "create table t (a int);;").
    rewrite E1, E2 in H. discriminate H.
  - intros H. specialize (H "grant usage on schema ''s'' to role r").
    rewrite E3, E4 in H. discriminate H.
Qed.

(** C4, amended: a normalized DDL that does not end with a semicolon is
    left as it is by a second [normalize_ddl], and a normalized grant that
    holds no quote character and no two white spaces in a row is left as it
    is by a second [normalize_grant]. *)
Theorem C4_normalization_idempotent_on_clean_results (x g : string) :
  not_ending is_semicolon (of_string (normalize_ddl x)) ->
  no_quotes (of_string (normalize_grant g)) ->
  adjacent no_spaces (of_string (normalize_grant g)) ->
  normalize_ddl (normalize_ddl x) = normalize_ddl x /\
  normalize_grant (normalize_grant g) = normalize_grant g.
Proof.
  unfold normalize_ddl, normalize_grant. rewrite !of_to_string.
  intros Hsemi Hq Hs. split.
  - destruct (of_string x) as [|c t] eqn:Ex; [done|].
    destruct (normalize_ddl_text (c :: t)) as [|d y] eqn:Ey; [done|].
    rewrite <- Ey. f_equal. apply ddl_shape_fixed; [|by rewrite Ey].
    apply normalize_ddl_text_shape.
  - f_equal. apply grant_shape_fixed; [|done..].
    apply normalize_grant_text_shape.
Qed.

Lemma C4_normalization_witness :
  normalize_ddl (normalize_ddl ("create table t (a int) ; -- draft"))
    = normalize_ddl ("create table t (a int) ; -- draft") /\
  normalize_grant
    (normalize_grant "grant usage on schema IDENTIFIER('db.s')  to role r")
    = normalize_grant "grant usage on schema IDENTIFIER('db.s')  to role r".
Proof.
  apply (C4_normalization_idempotent_on_clean_results
           "create table t (a int) ; -- draft"
           "grant usage on schema IDENTIFIER('db.s')  to role r").
  - vm_compute. reflexivity.
  - vm_compute. repeat constructor.
  - vm_compute. repeat split.
Defined.

(** * Further properties of the sources *)

(** ** compare_schema.py: the normal forms *)

Lemma is_quote_upper (c : ascii) : is_quote (upper_char c) = is_quote c.
Proof. by_cases_on c. Qed.

Lemma upper_lower_char (c : ascii) : upper_char (lower_char c) = upper_char c.
Proof. by_cases_on c. Qed.

Lemma upper_idem (s : text) : upper (upper s) = upper s.
Proof. apply upper_fixed_id, upper_is_fixed. Qed.

Lemma upper_lower (s : text) : upper (lower s) = upper s.
Proof.
  unfold upper, lower. rewrite <- list_fmap_compose. apply list_fmap_ext.
  intros i c _. apply upper_lower_char.
Qed.

(** X1.  The text that [normalize_ddl] returns, whatever it is given, is in
    upper case, starts and ends with no white space, holds the space as its
    only white space and never two in a row, holds no [--], has no white
    space next to a parenthesis, a comma, a semicolon or an equals sign, and
    holds no [{{ VAR('ENV') }}] template variable. *)
Theorem normalize_ddl_result_shape (ddl_text : string) :
  ddl_shape (of_string (normalize_ddl ddl_text)).
Proof.
  unfold normalize_ddl. rewrite of_to_string. apply normalize_ddl_text_shape.
Qed.

(** X2.  [normalize_ddl] does not see the case of the letters nor the white
    space around the text: the upper-case text, the lower-case text and the
    stripped text have the normal form of the text itself. *)
Theorem normalize_ddl_ignores_case_and_margins (ddl_text : string) :
  normalize_ddl (to_string (upper (of_string ddl_text)))
  = normalize_ddl ddl_text /\
  normalize_ddl (to_string (lower (of_string ddl_text)))
  = normalize_ddl ddl_text /\
  normalize_ddl (str_strip ddl_text) = normalize_ddl ddl_text.
Proof.
  unfold normalize_ddl, str_strip. rewrite !of_to_string.
  rewrite !normalize_ddl_text_pipeline.
  rewrite upper_idem, upper_lower, <- strip_upper, strip_idem. done.
Qed.

Lemma no_quotes_upper (s : text) : no_quotes s -> no_quotes (upper s).
Proof.
  unfold no_quotes, upper. intros H. apply Forall_fmap.
  eapply Forall_impl; [exact H|]. intros c Hc. simpl. by rewrite is_quote_upper.
Qed.

Lemma no_quotes_strip (s : text) : no_quotes s -> no_quotes (strip s).
Proof.
  unfold no_quotes. intros H. destruct (strip_infix s) as (a & b & E).
  rewrite E in H. by eapply Forall_infix.
Qed.

Lemma unquote_no_quotes (pre : string) (q : ascii) (post : string) (s : text) :
  is_quote q = true -> no_quotes s -> unquote pre q post s = s.
Proof.
  intros Hq Hs. apply unquote_id. eapply Forall_impl; [exact Hs|].
  intros c Hc. unfold ascii_eqb. destruct (Ascii.eqb c q) eqn:E; [|done].
  apply Ascii.eqb_eq in E. congruence.
Qed.

(** X3.  On a grant statement without quote characters [normalize_grant] is
    idempotent: the two [IDENTIFIER] substitutions and the two unquoting
    substitutions find nothing, and what is left, upper case, one space for
    each run of white space and no white space at the ends, is stable. *)
Theorem normalize_grant_idempotent_without_quotes (grant_statement : string) :
  no_quotes (of_string grant_statement) ->
  normalize_grant (normalize_grant grant_statement)
  = normalize_grant grant_statement.
Proof.
  intros Hq. unfold normalize_grant. rewrite of_to_string. f_equal.
  pose proof (no_quotes_strip _ (no_quotes_upper _ Hq)) as H1.
  assert (E : normalize_grant_text (of_string grant_statement)
              = strip (collapse_ws (strip (upper (of_string grant_statement))))).
  { unfold normalize_grant_text.
    rewrite (unquote_no_quotes _ squote _ _ eq_refl H1).
    rewrite (unquote_no_quotes _ dquote _ _ eq_refl H1).
    assert (H2 : no_quotes
                   (collapse_ws (strip (upper (of_string grant_statement)))))
      by by apply collapse_ws_Forall.
    rewrite (unquote_no_quotes _ squote _ _ eq_refl H2).
    by rewrite (unquote_no_quotes _ dquote _ _ eq_refl H2). }
  apply grant_shape_fixed; [apply normalize_grant_text_shape|..]; rewrite E.
  - apply no_quotes_strip. by apply collapse_ws_Forall.
  - destruct (strip_infix
                (collapse_ws (strip (upper (of_string grant_statement)))))
      as (a & b & Es).
    pose proof (collapse_ws_no_spaces
                  (strip (upper (of_string grant_statement))) false) as Hs.
    fold (collapse_ws (strip (upper (of_string grant_statement)))) in Hs.
    rewrite Es in Hs. by eapply adjacent_infix.
Qed.

Lemma normalize_grant_idempotent_without_quotes_witness :
  normalize_grant (normalize_grant "grant  select on t   to role r ")
  = normalize_grant "grant  select on t   to role r ".
Proof.
  apply (normalize_grant_idempotent_without_quotes
           "grant  select on t   to role r ").
  vm_compute. repeat constructor.
Defined.

(** ** compare_schema.py: the comparison *)

Lemma classify_swap (current_objects proposed_objects : gmap string string)
  (k : string) :
  classify proposed_objects current_objects k
  = swap_change (classify current_objects proposed_objects k).
Proof.
  unfold classify.
  destruct (normalize_ddl (strip_string (get_default current_objects k)))
    as [|a s] eqn:E1;
    destruct (normalize_ddl (strip_string (get_default proposed_objects k)))
      as [|b t] eqn:E2; simpl; try done.
  destruct (decide (String a s = String b t)) as [E|E].
  - rewrite !bool_decide_eq_true_2; done.
  - rewrite !bool_decide_eq_false_2; done.
Qed.

(** X4.  The comparison is symmetric: with the current and the proposed
    side exchanged, [compare_objects] exchanges the new and the removed keys
    and keeps the modified and the unchanged ones, and [compare_grants]
    exchanges the new and the removed grants and keeps the unchanged
    ones. *)
Theorem comparison_swap
  (current_objects proposed_objects : gmap string string)
  (current_grants proposed_grants : list string) :
  let c := compare_objects current_objects proposed_objects in
  let c' := compare_objects proposed_objects current_objects in
  let g := compare_grants current_grants proposed_grants in
  let g' := compare_grants proposed_grants current_grants in
  new c' = removed c /\ removed c' = new c /\
  modified c' = modified c /\ unchanged c' = unchanged c /\
  new_grants g' = removed_grants g /\ removed_grants g' = new_grants g /\
  unchanged_grants g' = unchanged_grants g.
Proof.
  assert (H : forall kind,
            select kind (compare_objects proposed_objects current_objects)
            = select (swap_change kind)
                (compare_objects current_objects proposed_objects)).
  { intros kind. rewrite !select_compare. unfold all_objects.
    rewrite (union_comm_L (dom proposed_objects)).
    apply list_filter_iff. intros k. rewrite classify_swap.
    destruct (classify current_objects proposed_objects k), kind; simpl;
      split; congruence. }
  cbv zeta. split; [exact (H New)|]. split; [exact (H Removed)|].
  split; [exact (H Modified)|]. split; [exact (H Unchanged)|].
  unfold compare_grants. simpl. split; [done|]. split; [done|].
  apply (comm_L (∩)).
Qed.

Lemma length_zero_nil {A : Type} (l : list A) : length l = 0 <-> l = [].
Proof. destruct l; simpl; split; (done || lia). Qed.

(** X5.  What verdict 0 of the comparison command means: the comparison ran,
    no object is new, modified or removed, no grant is new, and no removed
    grant names a role of another environment.  Removed grants of other
    kinds, those on object types outside the scope among them, never turn
    the verdict into 2. *)
Theorem verdict_zero_unfolded (target_env : string)
  (current_objects proposed_objects : gmap string string)
  (current_grants proposed_grants : list string) :
  let c := compare_objects current_objects proposed_objects in
  let g := compare_grants current_grants proposed_grants in
  main target_env
    (Loaded current_objects current_grants proposed_objects proposed_grants)
  = 0%Z <->
  new c = [] /\ modified c = [] /\ removed c = [] /\ new_grants g = ∅ /\
  (forall grant, grant ∈ removed_grants g ->
                 is_environment_cleanup target_env grant = false).
Proof.
  cbv zeta. unfold main. rewrite summary_verdict_spec.
  set (c := compare_objects current_objects proposed_objects).
  set (g := compare_grants current_grants proposed_grants).
  assert (Hm : meaningful_changes target_env c g = 0 <->
               new c = [] /\ modified c = [] /\ removed c = [] /\
               new_grants g = ∅ /\
               (forall grant, grant ∈ removed_grants g ->
                              is_environment_cleanup target_env grant = false)).
  { unfold meaningful_changes, managed_object_changes,
      meaningful_grant_changes, environment_cleanup_grants.
    rewrite <- !length_zero_nil, <- (leibniz_equiv_iff (new_grants g) ∅),
      <- size_empty_iff.
    assert (Hf : length (List.filter (is_environment_cleanup target_env)
                           (elements (removed_grants g))) = 0 <->
                 forall grant, grant ∈ removed_grants g ->
                   is_environment_cleanup target_env grant = false).
    { rewrite length_zero_nil. split.
      - intros Hnil grant Hin.
        destruct (is_environment_cleanup target_env grant) eqn:E; [|done].
        assert (Hg : In grant (List.filter (is_environment_cleanup target_env)
                                 (elements (removed_grants g)))).
        { apply filter_In. split; [|done].
          apply list_elem_of_In, elem_of_elements, Hin. }
        rewrite Hnil in Hg. destruct Hg.
      - intros Hall.
        destruct (List.filter (is_environment_cleanup target_env)
                    (elements (removed_grants g))) as [|x l] eqn:E; [done|].
        assert (Hx : In x (List.filter (is_environment_cleanup target_env)
                             (elements (removed_grants g))))
          by (rewrite E; by left).
        apply filter_In in Hx as [Hx1 Hx2].
        apply list_elem_of_In, elem_of_elements, Hall in Hx1. congruence. }
    rewrite <- Hf. lia. }
  rewrite <- Hm.
  destruct (meaningful_changes target_env c g =? 0) eqn:E.
  - apply Nat.eqb_eq in E. done.
  - apply Nat.eqb_neq in E. split; [done|]. intros H. by apply E in H.
Qed.

(** ** state_manager.py and workflow_utils.py *)

Import Guide.

Lemma update_state_frame (temp_dir : path) (now step : string)
  (details : option json) (w : files) (p : path) :
  p ≠ state_file temp_dir -> ¬ p `prefix_of` temp_dir ->
  update_state temp_dir now step details w !! p = w !! p.
Proof.
  intros H1 H2. unfold update_state, write.
  rewrite lookup_insert_ne by done. by apply mkdir_only_prefixes.
Qed.


Lemma temp_dir_of_state_file (temp_dir : path) :
  temp_dir `prefix_of` state_file temp_dir.
Proof. by apply prefix_app_r. Qed.



(** X8.  [validate_workflow_prerequisites] against
    [validate_state_transition]: the prerequisites are satisfied exactly
    when the temporary directory exists and the state check passes; on a
    file system that is a tree the directory test adds nothing for an
    expected state other than [NOT_STARTED], and for [NOT_STARTED] without a
    temporary directory the two disagree. *)
Theorem prerequisites_and_state (expected_state : string) (temp_dir : path)
  (w : files) :
  (validate_workflow_prerequisites expected_state temp_dir w = Satisfied <->
   path_exists temp_dir w = true /\
   validate_state_transition temp_dir expected_state w = true) /\
  (ancestors_exist w -> temp_dir ≠ [] -> expected_state ≠ "NOT_STARTED" ->
   (validate_workflow_prerequisites expected_state temp_dir w = Satisfied <->
    validate_state_transition temp_dir expected_state w = true)) /\
  (path_exists temp_dir w = false -> ancestors_exist w -> temp_dir ≠ [] ->
   validate_workflow_prerequisites "NOT_STARTED" temp_dir w = NoExtraction /\
   validate_state_transition temp_dir "NOT_STARTED" w = true).
Proof.
  assert (H1 : validate_workflow_prerequisites expected_state temp_dir w
               = Satisfied <->
               path_exists temp_dir w = true /\
               validate_state_transition temp_dir expected_state w = true).
  { unfold validate_workflow_prerequisites, validate_state_transition.
    destruct (path_exists temp_dir w); simpl.
    - destruct (json_is_str _ _); simpl; split; try done. by intros [_ ?].
    - split; [done|]. by intros [? _]. }
  assert (Hno : ancestors_exist w -> temp_dir ≠ [] ->
                path_exists temp_dir w = false ->
                get_current_state temp_dir w = JStr "NOT_STARTED").
  { intros Htree Hne E. apply path_exists_false in E.
    unfold get_current_state.
    destruct (w !! state_file temp_dir) as [n|] eqn:En; [|done].
    destruct (Htree temp_dir (state_file temp_dir)) as [m Hm];
      [done|apply temp_dir_of_state_file|by eexists|congruence]. }
  split; [exact H1|]. split.
  - intros Htree Hne Hexp. rewrite H1. split; [by intros [_ ?]|].
    intros Hv. split; [|done].
    destruct (path_exists temp_dir w) eqn:E; [done|].
    apply validate_true in Hv. rewrite (Hno Htree Hne eq_refl) in Hv.
    congruence.
  - intros E Htree Hne. split.
    + unfold validate_workflow_prerequisites. by rewrite E.
    + apply validate_true. by apply Hno.
Qed.

Lemma prerequisites_and_state_witness :
  validate_workflow_prerequisites "NOT_STARTED" example_temp_dir (∅ : files)
  = NoExtraction /\
  validate_state_transition example_temp_dir "NOT_STARTED" (∅ : files) = true.
Proof.
  apply (proj2 (proj2 (prerequisites_and_state "NOT_STARTED" example_temp_dir
                         ∅))).
  - reflexivity.
  - intros p q _ _ [n Hn]. by rewrite lookup_empty in Hn.
  - discriminate.
Defined.

Lemma next_step_of_state (temp_dir : path) (w : files) (state : string)
  (info : step_info) :
  get_current_state temp_dir w = JStr state ->
  step_of state WORKFLOW_STEPS = Some info ->
  get_next_step_info temp_dir w = Returned (Some info).
Proof. unfold get_next_step_info. by intros -> ->. Qed.

Lemma start_review_success (temp_dir : path)
  (render : string -> string -> list (string * string) -> string)
  (now : string) (inputs : list string) (w w' : files) :
  start_review temp_dir render now inputs w = Done true w' ->
  get_current_state temp_dir w = JStr "EXTRACTION_COMPLETE" /\
  exists w1 suggestions decisions,
    prepare_review temp_dir render now w = Ready w1 suggestions /\
    (suggestions = [] /\ decisions = [] \/
     review_all now 1 suggestions inputs [] = Completed decisions) /\
    w' = _complete_review temp_dir now decisions w1.
Proof.
  unfold start_review.
  destruct (validate_state_transition temp_dir "EXTRACTION_COMPLETE" w) eqn:Ev;
    simpl; [|discriminate].
  apply validate_true in Ev. intros H. split; [done|].
  destruct (prepare_review temp_dir render now w) as [w1 suggestions|w1|] eqn:Ep;
    [|discriminate..].
  destruct suggestions as [|s rest].
  - injection H as <-. exists w1, [], []. by auto.
  - destruct (review_all now 1 (s :: rest) inputs []) as [ds|ds|] eqn:Er;
      [|discriminate..].
    injection H as <-. exists w1, (s :: rest), ds. by auto.
Qed.

Lemma generate_success (temp_dir : path) (schema_name now : string)
  (w w' : files) :
  generate_final_version temp_dir schema_name now w = Done true w' ->
  get_current_state temp_dir w = JStr "REVIEW_COMPLETE" /\
  get_current_state temp_dir w' = JStr "FINAL_GENERATED".
Proof.
  unfold generate_final_version.
  destruct (validate_state_transition temp_dir "REVIEW_COMPLETE" w) eqn:Ev;
    cbn [negb]; [|discriminate].
  apply validate_true in Ev.
  destruct (check_required_files temp_dir ["raw"; "decisions.json"] w);
    [|discriminate].
  destruct (_load_decisions temp_dir w) as [[|d ds]|]; [| |discriminate].
  - unfold _generate_final_without_decisions.
    destruct (foldl _ _ _); [|discriminate]. simpl. intros [= <-].
    split; [done|apply state_after_update].
  - unfold _generate_final_with_decisions.
    destruct (foldl _ _ _); [|discriminate]. simpl. intros [= <-].
    split; [done|apply state_after_update].
Qed.

Lemma commit_success (temp_dir : path) (now : string) (w w' : files) :
  commit_schema temp_dir now false w = Done true w' ->
  get_current_state temp_dir w = JStr "FINAL_GENERATED" /\
  get_current_state temp_dir w' = JStr "COMMITTED".
Proof.
  unfold commit_schema.
  destruct (validate_state_transition temp_dir "FINAL_GENERATED" w) eqn:Ev;
    cbn [negb]; [|discriminate].
  apply validate_true in Ev.
  destruct (path_exists (final_dir temp_dir) w); cbn [negb]; [|discriminate].
  destruct (glob_sql (final_dir temp_dir) w) as [|f fs]; [discriminate|].
  unfold _perform_commit. destruct (foldl _ _ _); [|discriminate].
  simpl. intros [= <-]. split; [done|apply state_after_update].
Qed.

(** X9.  The steps move along [WORKFLOW_STEPS].  Whenever the review, the
    generation or the commit (not a dry run) answers [True], the state it
    started from has an entry in the table and the state it leaves is the
    [next] of that entry; a successful extraction leaves the [next] of
    [NOT_STARTED]; and after a successful commit the table has no entry
    for the state: the workflow has no further step. *)
Theorem success_follows_workflow_steps (temp_dir : path)
  (render : string -> string -> list (string * string) -> string)
  (output_root schema_name database now timestamp : string)
  (inputs : list string) (answer : warehouse) (w w' : files) :
  (start_review temp_dir render now inputs w = Done true w' \/
   generate_final_version temp_dir schema_name now w = Done true w' \/
   commit_schema temp_dir now false w = Done true w' ->
   exists info, get_next_step_info temp_dir w = Returned (Some info) /\
                get_current_state temp_dir w' = JStr (next info)) /\
  (extract_safe output_root schema_name database now timestamp answer w
   = Done true w' ->
   exists info,
     get_next_step_info (extractor_temp_dir output_root schema_name)
       (fresh_start output_root schema_name now w) = Returned (Some info) /\
     get_current_state (extractor_temp_dir output_root schema_name) w'
     = JStr (next info)) /\
  (commit_schema temp_dir now false w = Done true w' ->
   get_next_step_info temp_dir w' = Returned None).
Proof.
  split; [|split].
  - intros [H|[H|H]].
    + apply start_review_success in H
        as (Hs & w1 & suggestions & decisions & _ & _ & ->).
      eexists. split; [by eapply next_step_of_state|].
      apply state_after_update.
    + apply generate_success in H as [Hs Hs'].
      eexists. split; [by eapply next_step_of_state|done].
    + apply commit_success in H as [Hs Hs'].
      eexists. split; [by eapply next_step_of_state|done].
  - unfold extract_safe.
    destruct (try_extract _ _ _ _ _ _ _) as [[] w2] eqn:Et; [|discriminate].
    intros [= <-]. eexists.
    split; [eapply next_step_of_state; [apply fresh_start_state|reflexivity]|].
    unfold try_extract in Et.
    destruct (extract_schemas _ _ _ _ _ _) as [[[|r rs] w3]|];
      [discriminate| |discriminate].
    destruct (_ && _); [discriminate|]. injection Et as <-.
    apply state_after_update.
  - intros H. apply commit_success in H as [_ Hs'].
    unfold get_next_step_info. by rewrite Hs'.
Qed.

Lemma success_follows_workflow_steps_witness :
  exists (w' : files) (info : step_info),
    get_next_step_info example_temp_dir (fresh_start "schemas" "APP" "t1" ∅)
    = Returned (Some info) /\
    get_current_state example_temp_dir w' = JStr (next info).
Proof.
  destruct (extract_safe_success "schemas" "APP" "PLATFORM_SIT" "t1"
              "20260101" ["create table A (x int);"] [] ∅)
    as (w' & Hrun & _); [left; discriminate|].
  exists w'.
  exact (proj1 (proj2 (success_follows_workflow_steps example_temp_dir
                         no_report "schemas" "APP" "PLATFORM_SIT" "t1"
                         "20260101" [] (Extracted ["create table A (x int);"] [])
                         ∅ w')) Hrun).
Defined.

(** ** safe_extractor.py *)



Lemma confined_id (d : path) : confined d (fun w => w).
Proof. by intros w p _. Qed.

Lemma confined_compose (d : path) (f g : files -> files) :
  confined d f -> confined d g -> confined d (fun w => g (f w)).
Proof. intros Hf Hg w p Hp. by rewrite Hg, Hf. Qed.

Lemma confined_choice (d : path) (c : files -> bool) (f g : files -> files) :
  confined d f -> confined d g ->
  confined d (fun w => if c w then f w else g w).
Proof. intros Hf Hg w p Hp. destruct (c w); auto. Qed.














Lemma of_string_app (a b : string) :
  of_string (a +:+ b) = of_string a ++ of_string b.
Proof. induction a as [|c a IH]; simpl; [done|]. by rewrite <- IH. Qed.






Ltac same_root :=
  let E := fresh in
  intros E; rewrite <- ?app_assoc in E; apply app_inv_head in E;
  simpl in E; congruence.




(** ** interactive_reviewer.py *)

Lemma ask_verdict (is_safe : bool) (inputs : list string) (verdict : string)
  (rest : list string) :
  ask is_safe inputs = Some (verdict, rest) ->
  verdict = "accept" \/ verdict = "reject" \/ verdict = "quit".
Proof.
  induction inputs as [|line inputs IH]; simpl; [done|].
  repeat (destruct (one_of _ _); [intros [= <- _]; by auto|]).
  exact IH.
Qed.

Lemma review_all_completed (now : string) (suggestions : list suggestion) :
  forall (i : nat) (inputs : list string) (before decisions : list decision),
  review_all now i suggestions inputs before = Completed decisions ->
  exists made,
    decisions = before ++ made /\
    Forall2 (fun s d =>
               d_original d = sg_original s /\
               d_suggested d = sg_suggested s /\
               d_is_safe d = sg_is_safe s /\
               d_reviewed_at d = now /\
               (d_decision d = "accept" \/ d_decision d = "reject"))
      suggestions made /\
    (forall k d, made !! k = Some d -> d_suggestion_num d = i + k).
Proof.
  induction suggestions as [|s rest IH]; intros i inputs before decisions.
  - simpl. intros [= <-]. exists []. rewrite app_nil_r.
    split; [done|]. split; [constructor|]. intros k d Hk.
    by rewrite lookup_nil in Hk.
  - cbn [review_all].
    destruct (_review_single_suggestion now i s inputs) as [[d inputs']|] eqn:E;
      [|discriminate].
    destruct (bool_decide (d_decision d = "quit")) eqn:Eq; [discriminate|].
    apply bool_decide_eq_false in Eq. intros H.
    apply IH in H as (made & -> & Hall & Hnum).
    exists (d :: made). rewrite <- app_assoc. split; [done|].
    unfold _review_single_suggestion in E.
    destruct (ask (sg_is_safe s) inputs) as [[verdict inputs1]|] eqn:Ea;
      [|discriminate].
    apply ask_verdict in Ea.
    assert (Hd : d_original d = sg_original s /\
                 d_suggested d = sg_suggested s /\
                 d_is_safe d = sg_is_safe s /\ d_reviewed_at d = now /\
                 d_decision d = verdict /\ d_suggestion_num d = i).
    { destruct (bool_decide (verdict = "reject"));
        [destruct inputs1; [discriminate|]|]; injection E as <- _; done. }
    destruct Hd as (H1 & H2 & H3 & H4 & H5 & H6). split.
    + constructor; [|done]. repeat (split; [done|]).
      rewrite H5. rewrite H5 in Eq. destruct Ea as [?|[?|?]]; by auto.
    + intros [|k] d' Hk; simpl in Hk.
      * injection Hk as <-. lia.
      * apply Hnum in Hk. lia.
Qed.

Lemma complete_review_saves (temp_dir : path) (now : string)
  (decisions : list decision) (w : files) :
  get_decisions temp_dir (_complete_review temp_dir now decisions w)
  = Some decisions /\
  get_current_state temp_dir (_complete_review temp_dir now decisions w)
  = JStr "REVIEW_COMPLETE" /\
  (forall p, p ≠ decisions_file temp_dir -> p ≠ state_file temp_dir ->
             ¬ p `prefix_of` temp_dir ->
             _complete_review temp_dir now decisions w !! p = w !! p).
Proof.
  unfold _complete_review, _save_decisions. split; [|split].
  - unfold get_decisions. rewrite update_state_frame.
    + unfold write. by rewrite lookup_insert_eq.
    + unfold decisions_file, state_file. same_root.
    + unfold decisions_file. intros [k Hk]. rewrite <- app_assoc in Hk.
      rewrite <- (app_nil_r temp_dir) in Hk at 1. by apply app_inv_head in Hk.
  - apply state_after_update.
  - intros p H1 H2 H3. rewrite update_state_frame by done.
    unfold write. by rewrite lookup_insert_ne.
Qed.

(** X12.  A review that answers [True] is saved whole.  The suggestions were
    loaded, the decisions file then holds exactly one decision for each
    suggestion, in the order of the suggestions and numbered from 1, each
    with the texts of its suggestion and the verdict accept or reject (never
    quit), and the state is [REVIEW_COMPLETE]. *)
Theorem completed_review_is_saved (temp_dir : path)
  (render : string -> string -> list (string * string) -> string)
  (now : string) (inputs : list string) (w w' : files) :
  start_review temp_dir render now inputs w = Done true w' ->
  exists (w1 : files) (suggestions : list suggestion)
         (decisions : list decision),
    prepare_review temp_dir render now w = Ready w1 suggestions /\
    get_decisions temp_dir w' = Some decisions /\
    Forall2 (fun s d =>
               d_original d = sg_original s /\
               d_suggested d = sg_suggested s /\
               d_is_safe d = sg_is_safe s /\
               d_reviewed_at d = now /\
               (d_decision d = "accept" \/ d_decision d = "reject"))
      suggestions decisions /\
    (forall k d, decisions !! k = Some d -> d_suggestion_num d = S k) /\
    get_current_state temp_dir w' = JStr "REVIEW_COMPLETE".
Proof.
  intros H. apply start_review_success in H
    as (_ & w1 & suggestions & decisions & Hp & Hr & ->).
  exists w1, suggestions, decisions. split; [done|].
  destruct (complete_review_saves temp_dir now decisions w1) as (Hs & Hst & _).
  split; [done|]. split; [|split; [|done]].
  - destruct Hr as [[-> ->]|Hr]; [constructor|].
    apply review_all_completed in Hr as (made & -> & Hall & _). done.
  - destruct Hr as [[-> ->]|Hr].
    + intros k d Hk. by rewrite lookup_nil in Hk.
    + apply review_all_completed in Hr as (made & -> & _ & Hnum).
      intros k d Hk. by apply Hnum in Hk.
Qed.

Lemma completed_review_is_saved_witness :
  exists (suggestions : list suggestion) (decisions : list decision),
    get_decisions example_temp_dir example_reviewed = Some decisions /\
    Forall2 (fun s d =>
               d_original d = sg_original s /\
               d_suggested d = sg_suggested s /\
               d_is_safe d = sg_is_safe s /\
               d_reviewed_at d = "t1" /\
               (d_decision d = "accept" \/ d_decision d = "reject"))
      suggestions decisions.
Proof.
  destruct (completed_review_is_saved example_temp_dir no_report "t1"
              ["y"; "n"; "keep"]
              (write (raw_dir example_temp_dir ++ ["V1001__grants.sql"])
                 (Text example_grants_sql) example_extracted)
              example_reviewed)
    as (w1 & suggestions & decisions & _ & H1 & H2 & _); [vm_refl|].
  exists suggestions, decisions. split; [exact H1|exact H2].
Defined.

Lemma lstrip_blank (s : text) : forallb is_space s = true -> lstrip s = [].
Proof.
  induction s as [|c t IH]; simpl; [done|].
  intros [Hc Ht]%andb_true_iff. rewrite Hc. by apply IH.
Qed.

Lemma answer_blank (line : string) :
  forallb is_space (of_string line) = true -> answer line = "".
Proof. intros H. unfold answer, strip. by rewrite (lstrip_blank _ H). Qed.

(** X13.  The defaults of the review prompt are conservative.  A blank
    answer accepts a suggestion that is marked safe and rejects one that is
    not; and a suggestion that is not marked safe is accepted only by a line
    that reads, once stripped and in lower case, [y] or [yes]. *)
Theorem review_defaults (is_safe : bool) (inputs : list string) :
  (forall line rest,
     inputs = line :: rest -> forallb is_space (of_string line) = true ->
     ask is_safe inputs = Some (if is_safe then "accept" else "reject", rest)) /\
  (forall rest,
     ask false inputs = Some ("accept", rest) ->
     exists skipped line,
       inputs = skipped ++ line :: rest /\
       (answer line = "y" \/ answer line = "yes")).
Proof.
  split.
  - intros line rest -> Hb. cbn [ask]. rewrite (answer_blank line Hb).
    by destruct is_safe.
  - induction inputs as [|line inputs IH]; intros rest; cbn [ask]; [done|].
    destruct (one_of ["y"; "yes"] (answer line)) eqn:E1.
    + intros [= <-]. exists [], line. split; [done|].
      unfold one_of in E1. apply bool_decide_eq_true in E1.
      apply elem_of_cons in E1 as [?|E1]; [by left|].
      apply elem_of_cons in E1 as [?|E1]; [by right|].
      by apply elem_of_nil in E1.
    + destruct (one_of [""; "n"; "no"] (answer line)); [discriminate|].
      destruct (one_of ["q"; "quit"] (answer line)); [discriminate|].
      intros H. apply IH in H as (skipped & l & -> & Hl).
      by exists (line :: skipped), l.
Qed.

Lemma review_defaults_witness :
  ask true ["  "; "n"] = Some ("accept", ["n"]) /\
  ask false ["  "; "n"] = Some ("reject", ["n"]).
Proof.
  split.
  - exact (proj1 (review_defaults true ["  "; "n"]) "  " ["n"] eq_refl eq_refl).
  - exact (proj1 (review_defaults false ["  "; "n"]) "  " ["n"] eq_refl
             eq_refl).
Defined.

(** ** final_generator.py *)

Lemma required_files_present (temp_dir : path) (w : files) :
  check_required_files temp_dir ["raw"; "decisions.json"] w = [] <->
  is_Some (w !! raw_dir temp_dir) /\ is_Some (w !! decisions_file temp_dir).
Proof.
  unfold check_required_files. cbn [List.filter].
  fold (raw_dir temp_dir). fold (decisions_file temp_dir).
  rewrite <- !path_exists_true.
  destruct (path_exists (raw_dir temp_dir) w),
    (path_exists (decisions_file temp_dir) w); cbn [negb]; split; try done;
    by intros [? ?].
Qed.



Lemma fold_from_None {A B : Type} (f : option A -> B -> option A)
  (l : list B) :
  (forall b, f None b = None) -> foldl f None l = None.
Proof. intros Hf. induction l as [|b l IH]; simpl; [done|]. by rewrite Hf. Qed.

Lemma write_final_fold_frame (temp_dir : path) (schema_name now : string)
  (file_decisions : gmap string (list decision)) (names : list string) :
  forall (w w' : files) (p : path),
  foldl (write_final temp_dir schema_name now file_decisions) (Some w) names
  = Some w' ->
  ¬ final_dir temp_dir `prefix_of` p -> w' !! p = w !! p.
Proof.
  induction names as [|n names IH]; intros w w' p; cbn [foldl].
  - by intros [= <-].
  - destruct (write_final temp_dir schema_name now file_decisions (Some w) n)
      as [w1|] eqn:E.
    + intros H Hp. rewrite (IH w1 w' p H Hp). unfold write_final in E.
      destruct (read_text _ w); [|discriminate].
      destruct (match file_decisions !! n with
                | Some ds => _ | None => _ end) as [c a].
      injection E as <-. unfold write. apply lookup_insert_ne.
      intros <-. apply Hp. by apply prefix_app_r.
    + by rewrite fold_from_None.
Qed.

Lemma copy_with_banner_fold_frame (temp_dir : path) (schema_name now : string)
  (names : list string) :
  forall (w w' : files) (p : path),
  foldl (copy_with_banner temp_dir schema_name now) (Some w) names = Some w' ->
  ¬ final_dir temp_dir `prefix_of` p -> w' !! p = w !! p.
Proof.
  induction names as [|n names IH]; intros w w' p; cbn [foldl].
  - by intros [= <-].
  - destruct (copy_with_banner temp_dir schema_name now (Some w) n)
      as [w1|] eqn:E.
    + intros H Hp. rewrite (IH w1 w' p H Hp). unfold copy_with_banner in E.
      unfold copy2 in E.
      destruct (w !! (raw_dir temp_dir ++ [n])) as [[|c]|]; try discriminate.
      destruct (read_text _ _); [|discriminate].
      injection E as <-. unfold write.
      rewrite !lookup_insert_ne; [done|..];
        intros <-; apply Hp; by apply prefix_app_r.
    + by rewrite fold_from_None.
Qed.

(** X15.  The generator reads its inputs and writes only its outputs.  In
    state [REVIEW_COMPLETE] without the raw directory or without the
    decisions file it answers [False] and changes nothing; and whenever it
    answers [True], every path that is not the state file, not below the
    final directory and not a missing directory above them is as before: the
    raw files and the decisions file are never modified. *)
Theorem generator_keeps_its_inputs (temp_dir : path)
  (schema_name now : string) (w : files) :
  (get_current_state temp_dir w = JStr "REVIEW_COMPLETE" ->
   w !! raw_dir temp_dir = None \/ w !! decisions_file temp_dir = None ->
   generate_final_version temp_dir schema_name now w = Done false w) /\
  (forall w' : files,
     generate_final_version temp_dir schema_name now w = Done true w' ->
     (forall p : path,
        p ≠ state_file temp_dir -> ¬ final_dir temp_dir `prefix_of` p ->
        ¬ p `prefix_of` final_dir temp_dir ->
        w' !! p = w !! p) /\
     (forall name, w' !! (raw_dir temp_dir ++ [name])
                   = w !! (raw_dir temp_dir ++ [name])) /\
     w' !! decisions_file temp_dir = w !! decisions_file temp_dir).
Proof.
  split.
  - intros Hs%validate_true Hmiss. unfold generate_final_version.
    rewrite Hs. cbn [negb].
    destruct (check_required_files temp_dir ["raw"; "decisions.json"] w)
      eqn:E; [|done].
    apply required_files_present in E as [[? H1] [? H2]].
    destruct Hmiss; congruence.
  - intros w' H.
    assert (Hframe : forall p : path,
              p ≠ state_file temp_dir -> ¬ final_dir temp_dir `prefix_of` p ->
              ¬ p `prefix_of` final_dir temp_dir -> w' !! p = w !! p).
    { intros p H1 H2 H3. unfold generate_final_version in H.
      destruct (validate_state_transition temp_dir "REVIEW_COMPLETE" w);
        cbn [negb] in H; [|discriminate].
      destruct (check_required_files temp_dir ["raw"; "decisions.json"] w);
        [|discriminate].
      assert (H4 : ¬ p `prefix_of` temp_dir).
      { intros Hp. apply H3. unfold final_dir. by apply prefix_app_r. }
      destruct (_load_decisions temp_dir w) as [[|d ds]|]; [| |discriminate].
      - unfold _generate_final_without_decisions in H.
        destruct (foldl _ _ _) as [w1|] eqn:Ef; [|discriminate].
        injection H as <-. rewrite update_state_frame by done.
        rewrite (copy_with_banner_fold_frame _ _ _ _ _ _ p Ef H2).
        by apply mkdir_only_prefixes.
      - unfold _generate_final_with_decisions in H.
        destruct (foldl _ _ _) as [w1|] eqn:Ef; [|discriminate].
        injection H as <-. rewrite update_state_frame by done.
        rewrite (write_final_fold_frame _ _ _ _ _ _ _ p Ef H2).
        by apply mkdir_only_prefixes. }
    split; [exact Hframe|]. split.
    + intros name. apply Hframe.
      * unfold raw_dir, state_file. same_root.
      * unfold raw_dir, final_dir. rewrite <- app_assoc.
        by apply sibling_not_prefix.
      * unfold raw_dir, final_dir. rewrite <- app_assoc.
        by apply sibling_not_prefix.
    + apply Hframe.
      * unfold decisions_file, state_file. same_root.
      * unfold decisions_file, final_dir. by apply sibling_not_prefix.
      * unfold decisions_file, final_dir. by apply sibling_not_prefix.
Qed.

Lemma generator_keeps_its_inputs_witness :
  generate_final_version example_temp_dir "APP" "t2"
    (update_state example_temp_dir "t1" "REVIEW_COMPLETE" None ∅)
  = Done false (update_state example_temp_dir "t1" "REVIEW_COMPLETE" None ∅).
Proof.
  apply (proj1 (generator_keeps_its_inputs example_temp_dir "APP" "t2"
                  (update_state example_temp_dir "t1" "REVIEW_COMPLETE" None
                     ∅))).
  - vm_refl.
  - left. vm_refl.
Defined.

(** ** commit_manager.py *)









(** ** templating_analyzer.py *)

Lemma strip_prefix_ci_app (p q r : text) :
  same_text p q -> Analyzer.strip_prefix_ci p (q ++ r) = Some r.
Proof.
  induction 1 as [|a b p q Hab _ IH]; simpl; [done|]. by rewrite Hab.
Qed.

Lemma spaces_then_app (k : text -> bool) (ws r : text) :
  forallb is_space ws = true -> k r = true ->
  Analyzer.spaces_then k (ws ++ r) = true.
Proof.
  intros Hws Hk. induction ws as [|c ws IH]; simpl.
  - destruct r; simpl; rewrite Hk; done.
  - simpl in Hws. apply andb_true_iff in Hws as [Hc Hws].
    rewrite Hc, (IH Hws). apply orb_true_r.
Qed.

Lemma match_spaces (p : list Analyzer.atom) (ws r : text) :
  ws ≠ [] -> forallb is_space ws = true -> Analyzer.match_here p r = true ->
  Analyzer.match_here (Analyzer.Spaces :: p) (ws ++ r) = true.
Proof.
  intros Hne Hws Hr. destruct ws as [|c ws]; [done|]. simpl in *.
  apply andb_true_iff in Hws as [Hc Hws]. rewrite Hc. simpl.
  by apply spaces_then_app.
Qed.

Lemma match_word (p : list Analyzer.atom) (word found r : text) :
  same_text word found -> Analyzer.match_here p r = true ->
  Analyzer.match_here (Analyzer.Lit word :: p) (found ++ r) = true.
Proof. intros Hw Hr. simpl. by rewrite (strip_prefix_ci_app _ _ _ Hw). Qed.

Lemma re_search_app (p : list Analyzer.atom) (pre s : text) :
  Analyzer.match_here p s = true -> Analyzer.re_search p (pre ++ s) = true.
Proof.
  intros H. induction pre as [|c pre IH]; simpl.
  - destruct s; simpl; rewrite H; done.
  - rewrite IH. apply orb_true_r.
Qed.

(** X18.  In [_is_safe_to_template] the clause patterns come first.  When
    the context window holds [FROM], [JOIN] or [UPDATE], in any case, then
    white space, then the reference, in any case, the reference is
    classified safe with the FROM/JOIN reason, whatever else the window
    holds and wherever the reference stands: the tests for a table or view
    name and for a string literal are not reached. *)
Theorem clause_pattern_wins
  (match_text context full_content : text) (start stop : nat)
  (keyword : string) (pre found_keyword ws found post : text) :
  keyword ∈ ["FROM"; "JOIN"; "UPDATE"] ->
  same_text (of_string keyword) found_keyword ->
  ws ≠ [] -> forallb is_space ws = true ->
  same_text match_text found ->
  context = pre ++ found_keyword ++ ws ++ found ++ post ->
  Analyzer._is_safe_to_template match_text context full_content start stop
  = (true, Analyzer.reason_from_join).
Proof.
  intros Hk Hkw Hne Hws Hm ->.
  assert (Hs : Analyzer.re_search
                 [Analyzer.Lit (of_string keyword); Analyzer.Spaces;
                  Analyzer.Lit match_text]
                 (pre ++ found_keyword ++ ws ++ found ++ post) = true).
  { apply re_search_app, match_word; [done|].
    apply match_spaces; [done..|]. by apply match_word. }
  unfold Analyzer._is_safe_to_template.
  assert (He : existsb
                 (fun pattern =>
                    Analyzer.re_search pattern
                      (pre ++ found_keyword ++ ws ++ found ++ post))
                 (Analyzer.from_join_patterns match_text) = true).
  { apply existsb_exists.
    exists [Analyzer.Lit (of_string keyword); Analyzer.Spaces;
            Analyzer.Lit match_text].
    split; [|done]. unfold Analyzer.from_join_patterns.
    repeat (apply elem_of_cons in Hk as [->|Hk]; [simpl; by auto|]).
    by apply elem_of_nil in Hk. }
  by rewrite He.
Qed.

Lemma clause_pattern_wins_witness :
  let content := of_string "SELECT 'x from  platform_sit.t' AS note" in
  Analyzer._is_safe_to_template (of_string "PLATFORM_SIT") content content
    17 29
  = (true, Analyzer.reason_from_join) /\
  Analyzer._is_in_string_literal content 17 29 = true.
Proof.
  split; [|vm_refl].
  apply (clause_pattern_wins (of_string "PLATFORM_SIT") _ _ 17 29 "FROM"
           (of_string "SELECT 'x ") (of_string "from") (of_string "  ")
           (of_string "platform_sit") (of_string ".t' AS note")).
  - apply list_elem_of_here.
  - repeat constructor.
  - discriminate.
  - reflexivity.
  - repeat constructor.
  - reflexivity.
Defined.

(** ** utils/extraction.py and schema_config.py *)

Import Config Extraction.

Lemma semicolon_facts :
  is_space ";" = false /\ is_dash ";" = false /\ is_newline ";" = false /\
  is_semicolon ";" = true.
Proof. done. Qed.

Lemma is_semicolon_spec (c : ascii) : is_semicolon c = true <-> c = ";"%char.
Proof. split; [by_cases_on c|by intros ->]. Qed.

Lemma is_semicolon_upper (c : ascii) :
  is_semicolon (upper_char c) = is_semicolon c.
Proof. by_cases_on c. Qed.

Lemma rstrip_snoc (t : text) (c : ascii) :
  is_space c = false -> rstrip (t ++ [c]) = t ++ [c].
Proof.
  intros Hc. induction t as [|d t IH]; simpl; [by rewrite Hc|].
  rewrite IH. by destruct (t ++ [c]) eqn:E; [destruct t|].
Qed.

Lemma strip_snoc (t : text) (c : ascii) :
  headed t -> is_space c = false -> strip (t ++ [c]) = t ++ [c].
Proof.
  intros Ht Hc. unfold strip. rewrite lstrip_id; [by apply rstrip_snoc|].
  by destruct t.
Qed.

Lemma head_is_snoc (P : ascii -> bool) (t : text) (c : ascii) :
  P c = false -> head_is P (t ++ [c]) = head_is P t.
Proof. intros Hc. by destruct t. Qed.

Lemma remove_comments_snoc (c : ascii) (t : text) :
  is_dash c = false -> is_newline c = false ->
  forall b : bool,
    remove_comments_from b (t ++ [c])
    = remove_comments_from b t ++ (if comment_state b t then [] else [c]).
Proof.
  intros Hd Hn. induction t as [|d t IH]; intros b.
  - simpl. destruct b; [by rewrite Hn|]. by rewrite Hd.
  - cbn [app remove_comments_from comment_state].
    rewrite (head_is_snoc is_dash t c Hd). destruct b.
    + destruct (is_newline d); by rewrite IH.
    + destruct (is_dash d && head_is is_dash t); by rewrite IH.
Qed.

Lemma last_cons_keeps {A : Type} (c z : A) (l : list A) :
  last l = Some z -> last (c :: l) = Some z.
Proof. destruct l; [done|]. by rewrite last_cons_cons. Qed.

Lemma remove_comments_last (z : ascii) (t : text) :
  forall b : bool,
    comment_state b t = false -> last t = Some z ->
    last (remove_comments_from b t) = Some z.
Proof.
  induction t as [|d t IH]; intros b Hs Hl; [done|].
  cbn [remove_comments_from comment_state] in *.
  destruct t as [|e t].
  - simpl in *. injection Hl as ->. destruct b.
    + by destruct (is_newline z).
    + by rewrite andb_false_r.
  - rewrite last_cons_cons in Hl. destruct b.
    + destruct (is_newline d); [apply last_cons_keeps|]; by apply IH.
    + destruct (is_dash d && head_is is_dash (e :: t));
        [|apply last_cons_keeps]; by apply IH.
Qed.

Lemma collapse_ws_snoc (c : ascii) (x : text) :
  is_space c = false ->
  forall b : bool,
    collapse_ws_from b (x ++ [c]) = collapse_ws_from b x ++ [c].
Proof.
  intros Hc. induction x as [|d x IH]; intros b; simpl; [by rewrite Hc|].
  destruct (is_space d); [destruct b|]; by rewrite IH.
Qed.

Lemma lstrip_snoc (x : text) (c : ascii) :
  lstrip x ≠ [] -> lstrip (x ++ [c]) = lstrip x ++ [c].
Proof.
  induction x as [|d x IH]; simpl; [done|].
  destruct (is_space d); [exact IH|done].
Qed.

Lemma lstrip_nonempty (x : text) :
  x ≠ [] -> not_ending is_space x -> lstrip x ≠ [].
Proof.
  induction x as [|d x IH]; [done|]. intros _ Hx. simpl.
  destruct (is_space d) eqn:Hd; [|done].
  destruct x as [|e x]; [unfold not_ending in Hx; simpl in Hx; congruence|].
  apply IH; [done|by eapply not_ending_tail].
Qed.

Lemma next_is_snoc (P : ascii -> bool) (x : text) (c : ascii) :
  x ≠ [] -> not_ending is_space x -> next_is P (x ++ [c]) = next_is P x.
Proof.
  intros Hne Hx. unfold next_is.
  pose proof (lstrip_nonempty x Hne Hx) as Hl.
  rewrite (lstrip_snoc x c Hl). by destruct (lstrip x).
Qed.

Lemma squeeze_snoc (P : ascii -> bool) (c : ascii) (x : text) :
  is_space c = false -> not_ending is_space x ->
  forall a : bool, squeeze_from P a (x ++ [c]) = squeeze_from P a x ++ [c].
Proof.
  intros Hc. induction x as [|d x IH]; intros Hx a.
  - simpl. rewrite Hc. by destruct (P c).
  - pose proof (not_ending_tail _ _ _ Hx) as Hx'.
    cbn [app squeeze_from]. destruct (P d); [by rewrite IH|].
    destruct (is_space d) eqn:Hd; [|by rewrite IH].
    destruct x as [|e x];
      [unfold not_ending in Hx; simpl in Hx; congruence|].
    rewrite (next_is_snoc P (e :: x) c) by done.
    destruct (a || next_is P (e :: x)); by rewrite IH.
Qed.

Lemma squeeze_last (P : ascii -> bool) (z : ascii) (x : text) :
  is_space z = false -> last x = Some z ->
  forall a : bool, last (squeeze_from P a x) = Some z.
Proof.
  intros Hz. induction x as [|d x IH]; intros Hl a; [done|].
  destruct x as [|e x].
  - simpl in *. injection Hl as ->. rewrite Hz. by destruct (P z).
  - rewrite last_cons_cons in Hl. cbn [squeeze_from].
    destruct (P d); [by apply last_cons_keeps, IH|].
    destruct (is_space d); [|by apply last_cons_keeps, IH].
    destruct (a || next_is P (e :: x)); [|apply last_cons_keeps]; by apply IH.
Qed.

Lemma collapse_ws_last (z : ascii) (x : text) :
  is_space z = false -> last x = Some z -> last (collapse_ws x) = Some z.
Proof.
  intros Hz [y ->]%last_Some. unfold collapse_ws.
  rewrite collapse_ws_snoc by done. apply last_snoc.
Qed.

Lemma remove_trailing_semicolon_snoc (y : text) :
  remove_trailing_semicolon (y ++ [";"%char]) = y.
Proof.
  induction y as [|d y IH]; [done|]. cbn [app remove_trailing_semicolon].
  rewrite forallb_app. simpl. rewrite andb_false_r, andb_false_r.
  by rewrite IH.
Qed.

Lemma not_ending_of_last (Q : ascii -> bool) (z : ascii) (x : text) :
  last x = Some z -> Q z = false -> not_ending Q x.
Proof. unfold not_ending. by intros -> ?. Qed.

(** The semicolon that closes a text is dropped by the pipeline of
    [normalize_ddl], with the white space before it. *)
Lemma ddl_pipeline_closed (t : text) :
  strip t = t -> not_ending is_semicolon t ->
  ddl_pipeline (t ++ [";"%char]) = ddl_pipeline t.
Proof.
  intros Ht Hsemi. destruct semicolon_facts as (Hsp & Hd & Hn & _).
  unfold ddl_pipeline, remove_comments.
  rewrite (remove_comments_snoc _ t Hd Hn false).
  destruct (comment_state false t) eqn:Es; [by rewrite app_nil_r|].
  destruct (last t) as [z|] eqn:El.
  - assert (Hzs : is_space z = false).
    { assert (Hr : not_ending is_space t).
      { apply rstrip_not_ending. rewrite <- Ht. unfold strip.
        apply rstrip_idem. }
      unfold not_ending in Hr. by rewrite El in Hr. }
    assert (Hzc : is_semicolon z = false).
    { unfold not_ending in Hsemi. by rewrite El in Hsemi. }
    pose proof (remove_comments_last z t false Es El) as L1.
    pose proof (collapse_ws_last z _ Hzs L1) as L2.
    pose proof (squeeze_last is_punct z _ Hzs L2 false) as L3.
    pose proof (squeeze_last is_comma z _ Hzs L3 false) as L4.
    pose proof (squeeze_last is_equals z _ Hzs L4 false) as L5.
    unfold collapse_ws, squeeze in *.
    rewrite collapse_ws_snoc by done.
    rewrite (squeeze_snoc is_punct) by (by eauto using not_ending_of_last).
    rewrite (squeeze_snoc is_comma) by (by eauto using not_ending_of_last).
    rewrite (squeeze_snoc is_equals) by (by eauto using not_ending_of_last).
    rewrite remove_trailing_semicolon_snoc.
    rewrite remove_trailing_semicolon_id; by eauto using not_ending_of_last.
  - apply last_None in El. by subst t.
Qed.

Lemma endswith_one (c : ascii) (s : text) :
  endswith [c] s = match last s with
                   | Some z => ascii_eqb c z
                   | None => false
                   end.
Proof.
  unfold endswith, startswith. destruct s as [|d s] using rev_ind; [done|].
  rewrite rev_app_distr, last_snoc. simpl. by destruct (ascii_eqb c d).
Qed.

Lemma clean_up_ddl_text (ddl : string) :
  let s := strip (of_string ddl) in
  of_string (clean_up_ddl ddl)
  = if endswith [";"%char] s then s else s ++ [";"%char].
Proof.
  unfold clean_up_ddl. cbv zeta. rewrite of_to_string.
  destruct (endswith _ _); [by rewrite of_to_string|].
  by rewrite of_string_app, of_to_string.
Qed.
